(** * Router.js: route matching, match diffing and transition hooks

    A shallow embedding of [modules/Router.js]: the recursive matcher
    [findMatches], the match comparison [hasMatch], the serial hook runner
    [runHooks] with its two phases, [dispatch] and [flipSwitch]; then
    [makePath], the default handlers and [run] with its dispatch handler
    and change listener.

    How the JavaScript is represented:
    - objects used as string-keyed maps (a match's [params], the parsed
      query) are finite maps of their own properties; a property read goes
      on to [Object.prototype] and gives [undefined] for a name that is
      not there either;
    - route objects are compared by reference in the source, so every route
      carries a reference, [route_ref], that stands for its identity;
    - a handler's hook is a function of the transition it is given: it
      leaves a transition (possibly aborted, possibly with a promise
      attached) and either returns [undefined] or a promise, or throws;
    - a promise is represented by the way it settles, if it does, and by
      what the code that runs while the chain waits for it does to the
      transition (one shared object); a dispatch is represented by the
      list of its steps in time order, where the steps at which control
      goes back to the event loop are marked;
    - [utils/Path.js], [Transition.js] and [Match.js] are other modules of
      the library: the path functions are the interface [Path], and of the
      other two what [Router.js] uses is written out below;
    - the route trees come from the route builder, another module again:
      what [dispatch] relies on in a tree it is given, and in the params
      that [Path] extracts for its routes, is the condition [wellBuilt],
      and the properties of the diff are proved for such trees. *)

From stdpp Require Import gmap strings list fin_maps.

Set Warnings "-register-all".

Open Scope string_scope.
Open Scope list_scope.

(** ** Values and objects *)

(** What a property read of a params object can give: a string,
    [undefined], or, for a name the object does not have itself but
    [Object.prototype] has, the member of [Object.prototype] of that name
    (a function, or for [__proto__] the prototype object). *)
Inductive value : Type :=
| undefined
| str (s : string)
| inherited (name : string).

#[global] Instance value_eq_dec : EqDecision value.
Proof. solve_decision. Defined.

(** A params (or query) object: its own properties.  It is a plain object
    ([{}]), so its prototype is [Object.prototype]. *)
Abbreviation Params := (gmap string value).

(** The property names of [Object.prototype]. *)
Definition prototypeNames : list string :=
  ["constructor"; "toString"; "toLocaleString"; "valueOf"; "hasOwnProperty";
   "isPrototypeOf"; "propertyIsEnumerable"; "__proto__"; "__defineGetter__";
   "__defineSetter__"; "__lookupGetter__"; "__lookupSetter__"].

(** [o[k]]: a property read, through the prototype chain: the object's own
    property, else the member of [Object.prototype], else [undefined]. *)
Definition get (o : Params) (k : string) : value :=
  match o !! k with
  | Some v => v
  | None => if bool_decide (k ∈ prototypeNames) then inherited k else undefined
  end.

(** [o[k] = v] for a string, [undefined] or a member of [Object.prototype]:
    it creates or replaces the own property [k], except for [__proto__],
    whose setter leaves the object as it is for these values. *)
Definition setProperty (o : Params) (k : string) (v : value) : Params :=
  if bool_decide (k = "__proto__") then o else <[k := v]> o.

(** A thrown value or a rejection reason (an Error object, hence truthy). *)
Inductive Error : Type :=
| mkError (msg : string).

(** What a hook can pass to abort: a redirect descriptor or any other value. *)
Inductive Reason : Type :=
| Redirect (to : string) (params query : Params)
| Other (v : string).

(** How a promise settles: it fulfils, it rejects, or it stays pending for
    ever. *)
Inductive Settlement : Type :=
| Fulfils
| Rejects (e : Error)
| Never.

(** What the code that runs while the chain waits for a promise does to the
    transition, which is one object shared with the hooks and with
    [dispatch]: nothing, or [transition.abort(reason)] (a
    [transition.redirect] is an abort whose reason is a redirect). *)
Inductive Meanwhile : Type :=
| Untouched
| Aborts (reason : option Reason).

(** A promise is represented by how it settles and by what happens to the
    transition in the meantime; [pid] names it. *)
Record Promise : Type := mkPromise {
  pid : nat;
  settles : Settlement;
  meanwhile : Meanwhile
}.

(** ** Transition *)

Record Transition : Type := mkTransition {
  tpath : string;
  isAborted : bool;
  abortReason : option Reason;
  promise : option Promise
}.

(** Modelled from the spec: the constructor of [Transition.js] (not among the
    sources): a fresh transition is not aborted, has no abort reason and no
    pending wait. *)
Definition newTransition (path : string) : Transition :=
  {| tpath := path; isAborted := false; abortReason := None; promise := None |}.

(** Modelled from the spec: the [abort] effect of [Transition.js]: set
    [isAborted] and [abortReason]. *)
Definition abort (reason : Reason) (t : Transition) : Transition :=
  {| tpath := tpath t; isAborted := true; abortReason := Some reason;
     promise := promise t |}.

(** Modelled from the spec: the [wait] effect of [Transition.js]: attach a
    pending asynchronous value to [promise]. *)
Definition wait (p : Promise) (t : Transition) : Transition :=
  {| tpath := tpath t; isAborted := isAborted t; abortReason := abortReason t;
     promise := Some p |}.

(** The transition as the chain finds it when it goes on after the wait
    for [p]. *)
Definition afterWait (p : Promise) (t : Transition) : Transition :=
  match meanwhile p with
  | Untouched => t
  | Aborts reason =>
      {| tpath := tpath t; isAborted := true; abortReason := reason;
         promise := promise t |}
  end.

(** [delete transition.promise] *)
Definition deletePromise (t : Transition) : Transition :=
  {| tpath := tpath t; isAborted := isAborted t; abortReason := abortReason t;
     promise := None |}.

(** ** Handlers, routes and matches *)

(** How a call of a handler's hook completes.  Either way the hook may have
    mutated the transition; a normal completion carries the returned value
    ([None] for [undefined], [Some p] for a promise). *)
Inductive Completion : Type :=
| Normal (t : Transition) (ret : option Promise)
| Throw (t : Transition) (e : Error).

Definition transitionOf (c : Completion) : Transition :=
  match c with Normal t _ => t | Throw t _ => t end.

(** A rendered instance ([match.element]); opaque. *)
Abbreviation Element := nat.

(** A route handler; each hook is optional (duck-typed in the source). *)
Record Handler : Type := mkHandler {
  willTransitionFrom : option (Transition -> option Element -> Completion);
  willTransitionTo : option (Transition -> Params -> Params -> Completion)
}.

(** A route object.  [route_ref] is the object's identity; the other fields
    are the properties the router reads. *)
Inductive Route : Type := mkRoute {
  route_ref : nat;
  route_path : string;
  route_paramNames : list string;
  route_childRoutes : list Route;
  route_defaultRoute : option Route;
  route_notFoundRoute : option Route;
  route_handler : Handler
}.

(** [new Match(route, params)]; [element] is filled in by rendering. *)
Record Match : Type := mkMatch {
  match_route : Route;
  match_params : Params;
  match_element : option Element
}.

Definition newMatch (route : Route) (params : Params) : Match :=
  {| match_route := route; match_params := params; match_element := None |}.

(** [a === b] on route objects: identity. *)
Definition sameRoute (a b : Route) : bool :=
  bool_decide (route_ref a = route_ref b).

(** ** Router state *)

(** A resolved state [{ matches, path, routes, params, query }]. *)
Record State : Type := mkState {
  state_matches : list Match;
  state_path : string;
  state_routes : list Route;
  state_params : Params;
  state_query : Params
}.

(** What [router.state] can hold: the [{}] the constructor assigns, a
    resolved state, or [undefined]. *)
Inductive StateSlot : Type :=
| EmptyObject
| Resolved (s : State)
| UndefinedState.

(** [_nextState] is [None] when the property is absent. *)
Record Router : Type := mkRouter {
  routes : list Route;
  defaultRoute : option Route;
  notFoundRoute : option Route;
  state : StateSlot;
  _nextState : option State
}.

(** A router as its constructor leaves it, with the routes added. *)
Definition newRouter (rs : list Route) (d nf : option Route) : Router :=
  {| routes := rs; defaultRoute := d; notFoundRoute := nf;
     state := EmptyObject; _nextState := None |}.

(** ** What a dispatch does, in time order *)

(** The observable steps of one dispatch.  [Await], [Microtask] and
    [SetTimeout] are the points where control goes back to the event loop:
    what follows one of them runs on a later turn, what precedes all of them
    runs inline, inside the call of [dispatch]. *)
Inductive Event : Type :=
| CallFrom (m : Match) (c : Completion)
    (* handler.willTransitionFrom(transition, match.element), completed as c *)
| CallTo (m : Match) (c : Completion)
    (* handler.willTransitionTo(transition, match.params, query) *)
| Await (p : Promise)
    (* the rest of the chain waits for p to settle *)
| Microtask
    (* the next then-callback runs from the microtask queue *)
| SetTimeout
    (* a function passed to setTimeout starts running *)
| Callback (error : option Error) (abortReason : option Reason).
    (* callback.call(router, error, abortReason) *)

Definition isCall (e : Event) : bool :=
  match e with CallFrom _ _ | CallTo _ _ => true | _ => false end.

Definition isTurn (e : Event) : bool :=
  match e with Await _ | Microtask | SetTimeout => true | _ => false end.

Definition isCallback (e : Event) : bool :=
  match e with Callback _ _ => true | _ => false end.

(** The promise that [reduce] in [runHooks] has accumulated so far. *)
Inductive Chain : Type :=
| Null                 (* still null: the next hook is called inline *)
| Resolving            (* a promise that will fulfil *)
| Rejecting (e : Error)(* a promise that will reject with e *)
| Raised (e : Error)   (* a hook threw inline: control is in the catch *)
| Waiting.             (* a promise that never settles *)

Definition settle (p : Promise) : Chain :=
  match settles p with
  | Fulfils => Resolving
  | Rejects e => Rejecting e
  | Never => Waiting
  end.

Definition waiting (chain : Chain) : bool :=
  match chain with Waiting => true | _ => false end.

(** A hook function built by [map] in the two phases: run on the current
    transition, it gives the handler calls it made and how it completed. *)
Abbreviation Hook := (Transition -> list Event * Completion).

(** What a dispatch gives: a [TypeError] thrown out of [dispatch] itself;
    or, when it got as far as its callback, the router afterwards, the
    transition object as the hooks left it, and the steps taken; or, when
    the hook chain waits for a promise that never settles, the steps taken
    up to that wait: then the callback is never called and the router
    stays as it was. *)
Inductive DispatchResult : Type :=
| TypeError
| Ran (router : Router) (transition : Transition) (trace : list Event)
| Stalled (trace : list Event).

(** An event without the objects it carries: the reference of the route whose
    handler was called, the [pid] of the promise awaited. *)
Inductive Label : Type :=
| LFrom (ref : nat)
| LTo (ref : nat)
| LAwait (pid : nat)
| LMicrotask
| LSetTimeout
| LCallback (error : option Error) (abortReason : option Reason).

Definition label (e : Event) : Label :=
  match e with
  | CallFrom m _ => LFrom (route_ref (match_route m))
  | CallTo m _ => LTo (route_ref (match_route m))
  | Await p => LAwait (pid p)
  | Microtask => LMicrotask
  | SetTimeout => LSetTimeout
  | Callback error abortReason => LCallback error abortReason
  end.

(** Whether the dispatch callback runs inline: it is reached before any
    point where control goes back to the event loop. *)
Fixpoint callbackInline (trace : list Event) : bool :=
  match trace with
  | [] => false
  | e :: rest =>
      if isCallback e then true
      else if isTurn e then false
      else callbackInline rest
  end.

(** ** The path utilities *)

(** The functions of [utils/Path.js] (an external collaborator) that the
    router calls: [Path.extractParams(pattern, path)] gives the params
    object or [null], [Path.withoutQuery] strips the query string and
    [Path.extractQuery] gives the parsed query or [null]. *)
Class Path : Type := {
  extractParams : string -> string -> option Params;
  withoutQuery : string -> string;
  extractQuery : string -> option Params
}.

(** ** The matcher *)

Section Router.

Context {paths : Path}.

(** [matches[matches.length - 1]], [undefined] on an empty array. *)
Definition getRootMatch (matches : list Match) : option Match :=
  last matches.

(** [route.paramNames.reduce(function (params, paramName) {
      params[paramName] = rootParams[paramName]; return params }, {})] *)
Definition reduceParamNames (paramNames : list string) (rootParams : Params)
  : Params :=
  fold_left (fun params paramName =>
               setProperty params paramName (get rootParams paramName))
            paramNames ∅.

(** [r && (params = Path.extractParams(r.path, path))], and the singleton
    chain returned when it holds. *)
Definition matchAlone (path : string) (r : option Route)
  : option (list Match) :=
  match r with
  | Some route =>
      match extractParams (route_path route) path with
      | Some params => Some [newMatch route params]
      | None => None
      end
  | None => None
  end.

(** The code after the loop: the default route, then the not-found route,
    then [null]. *)
Definition fallback (path : string) (defaultRoute notFoundRoute : option Route)
  : option (list Match) :=
  match matchAlone path defaultRoute with
  | Some matches => Some matches
  | None => matchAlone path notFoundRoute
  end.

(** The [for] loop over [routes]: the first iteration that returns ends the
    search; when none does, the code after the loop runs. *)
Definition forEachRoute (iteration : Route -> option (list Match))
    (afterLoop : option (list Match)) : list Route -> option (list Match) :=
  fix loop (routes : list Route) : option (list Match) :=
    match routes with
    | [] => afterLoop
    | route :: rest =>
        match iteration route with
        | Some matches => Some matches
        | None => loop rest
        end
    end.

(** One iteration of the loop of [findMatches] for [route]: the recursive
    call on the subtree, then the route's own pattern. *)
Fixpoint visit (path : string) (route : Route) {struct route}
  : option (list Match) :=
  match forEachRoute (visit path)
          (fallback path (route_defaultRoute route) (route_notFoundRoute route))
          (route_childRoutes route) with
  | Some matches =>
      let rootParams :=
        match getRootMatch matches with
        | Some root => match_params root
        | None => ∅ (* not reached: a returned chain is never empty *)
        end in
      let params := reduceParamNames (route_paramNames route) rootParams in
      Some (newMatch route params :: matches)
  | None =>
      match extractParams (route_path route) path with
      | Some params => Some [newMatch route params]
      | None => None
      end
  end.

Definition findMatches (path : string) (routes : list Route)
    (defaultRoute notFoundRoute : option Route) : option (list Match) :=
  forEachRoute (visit path) (fallback path defaultRoute notFoundRoute) routes.

(** ** Comparing matches *)

(** The [for (property in m.params)] loop of [hasMatch]: every property of
    [m.params] reads the same in [match.params]. *)
Definition sameProperties (mparams matchparams : Params) : bool :=
  bool_decide (map_Forall (fun property v => v = get matchparams property)
                          mparams).

Definition hasMatch (matches : list Match) (match_ : Match) : bool :=
  existsb (fun m =>
             if negb (sameRoute (match_route m) (match_route match_))
             then false
             else sameProperties (match_params m) (match_params match_))
          matches.

(** ** Running the hooks *)

(** The tail of both hook functions:
    [var promise = transition.promise; delete transition.promise;
     return promise]. *)
Definition consumePromise (transition : Transition) : Completion :=
  Normal (deletePromise transition) (promise transition).

(** The hook function that [runTransitionFromHooks] builds for [match]. *)
Definition fromHook (match_ : Match) : Hook := fun transition =>
  let handler := route_handler (match_route match_) in
  match negb (isAborted transition), willTransitionFrom handler with
  | true, Some hook =>
      let c := hook transition (match_element match_) in
      ([CallFrom match_ c], c)
  | _, _ => ([], consumePromise transition)
  end.

(** The hook function that [runTransitionToHooks] builds for [match]. *)
Definition toHook (query : Params) (match_ : Match) : Hook := fun transition =>
  let handler := route_handler (match_route match_) in
  match negb (isAborted transition), willTransitionTo handler with
  | true, Some hook =>
      let c := hook transition (match_params match_) query in
      match c with
      | Normal transition' _ => ([CallTo match_ c], consumePromise transition')
      | Throw transition' e => ([CallTo match_ c], Throw transition' e)
      end
  | _, _ => ([], consumePromise transition)
  end.

(** One step of [hooks.reduce(function (promise, hook) {
      return promise ? promise.then(hook) : hook() }, null)]
    together with what the chained promise later does. *)
Definition reduceStep (acc : Transition * Chain * list Event) (hook : Hook)
  : Transition * Chain * list Event :=
  let '(transition, chain, trace) := acc in
  match chain with
  | Null =>
      let '(calls, c) := hook transition in
      match c with
      | Normal t None => (t, Null, trace ++ calls)
      | Normal t (Some p) =>
          (afterWait p t, settle p, trace ++ calls ++ [Await p])
      | Throw t e => (t, Raised e, trace ++ calls)
      end
  | Resolving =>
      let '(calls, c) := hook transition in
      match c with
      | Normal t None => (t, Resolving, trace ++ calls ++ [Microtask])
      | Normal t (Some p) =>
          (afterWait p t, settle p, trace ++ calls ++ [Await p])
      | Throw t e => (t, Rejecting e, trace ++ calls)
      end
  | Rejecting e => (transition, Rejecting e, trace)
  | Raised e => (transition, Raised e, trace)
  | Waiting => (transition, Waiting, trace)
  end.

(** [runHooks(hooks, callback)].  The callback reads the shared transition
    when it runs, so it is given the transition as the hooks left it.  The
    result is the steps taken and what the callback gave, [None] when the
    callback is never called. *)
Definition runHooks {R : Type} (hooks : list Hook) (transition : Transition)
    (callback : option Error -> Transition -> list Event * option R)
  : list Event * option R :=
  let '(t, chain, trace) :=
    fold_left reduceStep hooks (transition, Null, []) in
  match chain with
  | Raised error =>
      let '(after, r) := callback (Some error) t in (trace ++ after, r)
  | Null =>
      let '(after, r) := callback None t in (trace ++ after, r)
  | Resolving =>
      let '(after, r) := callback None t in
      (trace ++ SetTimeout :: after, r)
  | Rejecting error =>
      let '(after, r) := callback (Some error) t in
      (trace ++ SetTimeout :: after, r)
  | Waiting => (trace, None)
  end.

Definition runTransitionFromHooks {R : Type} (matches : list Match)
    (transition : Transition)
    (callback : option Error -> Transition -> list Event * option R)
  : list Event * option R :=
  let hooks := map fromHook (reverse matches) in
  runHooks hooks transition callback.

Definition runTransitionToHooks {R : Type} (matches : list Match)
    (transition : Transition) (query : Params)
    (callback : option Error -> Transition -> list Event * option R)
  : list Event * option R :=
  let hooks := map (toHook query) matches in
  runHooks hooks transition callback.

(** ** The router's methods *)

(** [Router.prototype.match] *)
Definition Router_match (router : Router) (path : string)
  : option (list Match) :=
  findMatches (withoutQuery path) (routes router) (defaultRoute router)
              (notFoundRoute router).

(** [this.state.matches || []]; [None] when reading [matches] throws because
    [this.state] is [undefined]. *)
Definition currentMatchesOf (slot : StateSlot) : option (list Match) :=
  match slot with
  | EmptyObject => Some []
  | Resolved s => Some (state_matches s)
  | UndefinedState => None
  end.

(** The computation of [fromMatches] and [toMatches] in [dispatch]. *)
Definition diffMatches (currentMatches nextMatches : list Match)
  : list Match * list Match :=
  match currentMatches with
  | _ :: _ =>
      (List.filter (fun match_ => negb (hasMatch nextMatches match_))
                   currentMatches,
       List.filter (fun match_ => negb (hasMatch currentMatches match_))
                   nextMatches)
  | [] => ([], nextMatches)
  end.

(** [error || transition.isAborted] *)
Definition failed (error : option Error) (transition : Transition) : bool :=
  match error with Some _ => true | None => isAborted transition end.

(** The state that the innermost callback of [dispatch] assigns to
    [router._nextState]. *)
Definition resolvedState (path : string) (query : Params)
    (currentMatches fromMatches toMatches : list Match) : State :=
  let matches :=
    take (length currentMatches - length fromMatches) currentMatches
      ++ toMatches in
  let rootMatch := getRootMatch matches in
  let params :=
    match rootMatch with
    | Some m => match_params m
    | None => ∅
    end in
  let routes := map match_route matches in
  {| state_matches := matches; state_path := path; state_routes := routes;
     state_params := params; state_query := query |}.

Definition setNextState (router : Router) (s : State) : Router :=
  {| routes := routes router; defaultRoute := defaultRoute router;
     notFoundRoute := notFoundRoute router; state := state router;
     _nextState := Some s |}.

Definition dispatch (router : Router) (path : string) : DispatchResult :=
  match currentMatchesOf (state router) with
  | None => TypeError
  | Some currentMatches =>
      let transition := newTransition path in
      let nextMatches := default [] (Router_match router path) in
      let '(fromMatches, toMatches) := diffMatches currentMatches nextMatches in
      let query := default ∅ (extractQuery path) in
      let '(trace, outcome) :=
        runTransitionFromHooks fromMatches transition (fun error transition =>
          if failed error transition
          then ([Callback error (abortReason transition)],
                Some (router, transition))
          else
            runTransitionToHooks toMatches transition query
              (fun error transition =>
                 if failed error transition
                 then ([Callback error (abortReason transition)],
                       Some (router, transition))
                 else
                   ([Callback None None],
                    Some (setNextState router
                            (resolvedState path query currentMatches
                                           fromMatches toMatches),
                          transition)))) in
      match outcome with
      | Some (router', transition') => Ran router' transition' trace
      | None => Stalled trace
      end
  end.

Definition flipSwitch (router : Router) : Router :=
  {| routes := routes router; defaultRoute := defaultRoute router;
     notFoundRoute := notFoundRoute router;
     state := match _nextState router with
              | Some s => Resolved s
              | None => UndefinedState
              end;
     _nextState := None |}.

(** A dispatch followed, when it called back, by the commit. *)
Definition dispatchAndFlip (router : Router) (path : string) : Router :=
  match dispatch router path with
  | Ran router' _ _ => flipSwitch router'
  | TypeError | Stalled _ => router
  end.

(** Equality of matches as the specification words it: the same route
    object and an identical parameter mapping. *)
Definition equalMatch (a b : Match) : Prop :=
  route_ref (match_route a) = route_ref (match_route b) /\
  match_params a = match_params b.

(** The error that [runHooks] hands to its callback for a chain, and the
    [setTimeout] it goes through when the chain is a promise. *)
Definition errorOf (chain : Chain) : option Error :=
  match chain with
  | Rejecting e | Raised e => Some e
  | Null | Resolving | Waiting => None
  end.

Definition deferral (chain : Chain) : list Event :=
  match chain with
  | Resolving | Rejecting _ => [SetTimeout]
  | Null | Raised _ | Waiting => []
  end.

(** How the handler call recorded by an event completed. *)
Definition completionOf (e : Event) : option Completion :=
  match e with
  | CallFrom _ c | CallTo _ c => Some c
  | _ => None
  end.



(** The step is a wait for a promise that never settles. *)
Definition awaitsForever (e : Event) : bool :=
  match e with
  | Await p =>
      match settles p with
      | Never => true
      | _ => false
      end
  | _ => false
  end.





(** The hook functions of the two phases. *)
Definition phaseHook (h : Hook) : Prop :=
  (exists m, h = fromHook m) \/ (exists query m, h = toHook query m).


(** How the steps of a phase account for a chain that waits for ever: it
    does so exactly when its last step is the wait for a promise that never
    settles, and no earlier step is such a wait. *)
Definition stallRecorded (chain : Chain) (trace : list Event) : Prop :=
  if waiting chain
  then exists steps p,
         trace = steps ++ [Await p] /\
         settles p = Never /\
         Forall (fun e => awaitsForever e = false) steps
  else Forall (fun e => awaitsForever e = false) trace.


(** [child] is reached from [parent] by the recursive call of
    [findMatches]: it is one of the child routes, or the default or the
    not-found route of [parent]. *)
Definition reachedFrom (parent child : Route) : Prop :=
  In child (route_childRoutes parent) \/
  route_defaultRoute parent = Some child \/
  route_notFoundRoute parent = Some child.

(** Every match of the chain is reached from the match before it. *)
Fixpoint nested (matches : list Match) : Prop :=
  match matches with
  | parent :: (child :: _) as rest =>
      reachedFrom (match_route parent) (match_route child) /\ nested rest
  | _ => True
  end.

(** The error that a step brings into the chain: a handler call that
    throws, or a wait on a promise that rejects. *)
Definition raises (e : Event) : option Error :=
  match e with
  | CallFrom _ (Throw _ err) | CallTo _ (Throw _ err) => Some err
  | Await p =>
      match settles p with
      | Rejects err => Some err
      | Fulfils | Never => None
      end
  | _ => None
  end.

(** How the steps of a phase account for the error of its chain: the chain
    holds an error exactly when the last step taken raised it, and no step
    before did; an error raised by a wait goes through [setTimeout]. *)
Definition errorRecorded (chain : Chain) (trace : list Event) : Prop :=
  match errorOf chain with
  | Some e =>
      exists before step,
        trace = before ++ [step] /\
        raises step = Some e /\
        Forall (fun s => raises s = None) before /\
        (isTurn step = true -> deferral chain = [SetTimeout])
  | None => Forall (fun s => raises s = None) trace
  end.

(** What holds of a chain found for [path]: it ends with a match whose
    params are those its own pattern extracts from the path, every match
    before it holds its route's declared names read from those params, and
    every match is reached from the one before it. *)
Definition chainFor (path : string) (matches : list Match) : Prop :=
  exists ancestors deepest,
    matches = ancestors ++ [deepest] /\
    extractParams (route_path (match_route deepest)) path
      = Some (match_params deepest) /\
    Forall (fun m =>
              match_params m
              = reduceParamNames (route_paramNames (match_route m))
                                 (match_params deepest))
           ancestors /\
    nested matches.

(** Where the first match of a chain found at one level comes from. *)
Definition startsIn (matches : list Match) (routes : list Route)
    (d nf : option Route) : Prop :=
  exists m rest,
    matches = m :: rest /\
    (In (match_route m) routes \/ d = Some (match_route m)
     \/ nf = Some (match_route m)).

End Router.

(** ** Example data *)

(** A small instance of [Path.extractParams] for the examples: patterns
    made of literal segments and [:name] segments, matched segment by
    segment. *)
Fixpoint segmentsFrom (acc s : string) : list string :=
  match s with
  | EmptyString => [acc]
  | String c rest =>
      if String.eqb (String c "") "/" then acc :: segmentsFrom "" rest
      else segmentsFrom (acc +:+ String c "") rest
  end.

Definition segments : string -> list string := segmentsFrom "".

Fixpoint matchSegments (patterns segs : list string) : option Params :=
  match patterns, segs with
  | [], [] => Some ∅
  | p :: ps, s :: ss =>
      if String.prefix ":" p then
        if String.eqb s "" then None
        else
          (fun m : Params =>
             <[String.substring 1 (String.length p - 1) p := str s]> m)
            <$> matchSegments ps ss
      else if String.eqb p s then matchSegments ps ss
      else None
  | _, _ => None
  end.

Definition simpleExtractParams (pattern path : string) : option Params :=
  matchSegments (segments pattern) (segments path).

(** Paths without a query string, as the examples use them. *)
Definition keepPath (path : string) : string := path.
Definition noQuery (path : string) : option Params := None.

Definition simplePath : Path :=
  {| extractParams := simpleExtractParams;
     withoutQuery := keepPath;
     extractQuery := noQuery |}.

(** The parameter names of a pattern of the example path utilities. *)
Definition namesIn (patterns : list string) : list string :=
  omap (fun p =>
          if String.prefix ":" p
          then Some (String.substring 1 (String.length p - 1) p)
          else None)
       patterns.

Definition noHooks : Handler :=
  {| willTransitionFrom := None; willTransitionTo := None |}.

Definition leaf (ref : nat) (path : string) (names : list string)
    (h : Handler) : Route :=
  mkRoute ref path names [] None None h.

(** The tree of the documentation of [match]: an application route with
    the children [posts] and [post]. *)
Definition postsRoute : Route := leaf 2 "/posts" [] noHooks.
Definition postRoute : Route := leaf 3 "/posts/:id" ["id"] noHooks.
Definition appRoute : Route :=
  mkRoute 1 "/" [] [postsRoute; postRoute] None None noHooks.

(** A tree whose middle route declares no parameter while its parent and
    its child both declare [a]. *)
Definition innerRoute : Route := leaf 13 "/z/:a" ["a"] noHooks.
Definition middleRoute : Route :=
  mkRoute 12 "/y" [] [innerRoute] None None noHooks.
Definition outerRoute : Route :=
  mkRoute 11 "/x/:a" ["a"] [middleRoute] None None noHooks.

(** Handlers for the hook examples. *)
Definition slowPromise : Promise :=
  {| pid := 7; settles := Fulfils; meanwhile := Untouched |}.

(** [willTransitionFrom: function (transition) { transition.wait(p) }] *)
Definition waitsOnLeave : Handler :=
  {| willTransitionFrom := Some (fun t _ => Normal (wait slowPromise t) None);
     willTransitionTo := None |}.

(** [willTransitionFrom: function () {}] *)
Definition watchesLeave : Handler :=
  {| willTransitionFrom := Some (fun t _ => Normal t None);
     willTransitionTo := None |}.

(** [willTransitionTo: function () {}] *)
Definition watchesEnter : Handler :=
  {| willTransitionFrom := None;
     willTransitionTo := Some (fun t _ _ => Normal t None) |}.

(** [willTransitionFrom: function (transition) {
      transition.redirect('posts') }] *)
Definition redirectsOnLeave : Handler :=
  {| willTransitionFrom :=
       Some (fun t _ => Normal (abort (Redirect "posts" ∅ ∅) t) None);
     willTransitionTo := None |}.

(** [willTransitionTo: function (transition) {
      transition.wait(Promise.reject(new Error('boom'))) }] *)
Definition boom : Error := mkError "boom".

Definition brokenPromise : Promise :=
  {| pid := 8; settles := Rejects boom; meanwhile := Untouched |}.

Definition failsOnEnter : Handler :=
  {| willTransitionFrom := None;
     willTransitionTo := Some (fun t _ _ => Normal (wait brokenPromise t) None) |}.

Definition draftRoute : Route := leaf 22 "/inbox/draft" [] waitsOnLeave.
Definition inboxRoute : Route :=
  mkRoute 21 "/inbox" [] [draftRoute] None None watchesLeave.
Definition aboutRoute : Route := leaf 23 "/about" [] watchesEnter.
Definition formRoute : Route := leaf 24 "/form" [] redirectsOnLeave.
Definition brokenRoute : Route := leaf 26 "/broken" [] failsOnEnter.

(** The router and its [dispatch] over the example path utilities. *)
Definition exampleDispatch : Router -> string -> DispatchResult :=
  @dispatch simplePath.

Definition exampleDispatchAndFlip : Router -> string -> Router :=
  @dispatchAndFlip simplePath.

(** The documentation's router, before its first dispatch. *)
Definition blogRouter : Router := newRouter [appRoute] None None.

(** A router showing [/z/1], about to go to [/z/2]. *)
Definition nestedRouter : Router :=
  exampleDispatchAndFlip (newRouter [outerRoute] None None) "/z/1".

(** A router showing [/inbox/draft]. *)
Definition inboxRouter : Router :=
  exampleDispatchAndFlip (newRouter [inboxRoute; aboutRoute] None None)
                         "/inbox/draft".

(** A draft route without a parent, and a router showing [/draft]. *)
Definition soloDraftRoute : Route := leaf 25 "/draft" [] waitsOnLeave.

Definition draftRouter : Router :=
  exampleDispatchAndFlip (newRouter [soloDraftRoute; aboutRoute] None None)
                         "/draft".

(** A router showing [/form], whose handler redirects when left. *)
Definition formRouter : Router :=
  exampleDispatchAndFlip (newRouter [formRoute; aboutRoute] None None)
                         "/form".

Definition idParams (v : string) : Params := {["id" := str v]}.

(** [willTransitionTo: function (transition) {
      transition.wait(confirm().then(function (ok) {
        if (!ok) transition.abort('declined') })) }]:
    the transition is aborted while the chain waits. *)
Definition declined : Reason := Other "declined".

Definition confirmation : Promise :=
  {| pid := 9; settles := Fulfils; meanwhile := Aborts (Some declined) |}.

Definition asksOnEnter : Handler :=
  {| willTransitionFrom := None;
     willTransitionTo := Some (fun t _ _ => Normal (wait confirmation t) None) |}.

Definition stepRoute : Route := leaf 42 "/wizard/step" [] watchesEnter.
Definition wizardRoute : Route :=
  mkRoute 41 "/wizard" [] [stepRoute] None None asksOnEnter.

(** [willTransitionTo: function (transition) {
      transition.wait(new Promise(function () {}));
      transition.abort('stuck') }]:
    an abort, and a wait for a promise that never settles. *)
Definition endless : Promise :=
  {| pid := 10; settles := Never; meanwhile := Untouched |}.

Definition stuck : Reason := Other "stuck".

Definition hangsOnEnter : Handler :=
  {| willTransitionFrom := None;
     willTransitionTo :=
       Some (fun t _ _ => Normal (abort stuck (wait endless t)) None) |}.

Definition stuckRoute : Route := leaf 43 "/stuck" [] hangsOnEnter.

(** The documentation's router, showing [/posts/123]. *)
Definition postRouter : Router :=
  exampleDispatchAndFlip blogRouter "/posts/123".

(** ** The routes a search tries *)

(** The routes whose own pattern the iteration of the loop of [findMatches]
    for [route] can test, in the order of the tests: those of the recursive
    call on its children, its default route, its not-found route, and last
    the route itself.  Of a default or a not-found route only the pattern
    is tested, its children are not searched. *)
Fixpoint triedIn (route : Route) : list Route :=
  flat_map triedIn (route_childRoutes route)
    ++ option_list (route_defaultRoute route)
    ++ option_list (route_notFoundRoute route)
    ++ [route].

(** The same for one call of [findMatches]. *)
Definition triedRoutes (routes : list Route) (d nf : option Route)
  : list Route :=
  flat_map triedIn routes ++ option_list d ++ option_list nf.

(** ** The lines of routes a search can follow *)

(** A fallback route is searched alone. *)
Definition alone (r : option Route) : list (list Route) :=
  match r with
  | Some route => [[route]]
  | None => []
  end.

(** The lines of routes, from [route] downwards, along which the iteration
    of the loop of [findMatches] for [route] can build a chain: [route]
    followed by a line of the recursive call on its children, or by its
    default or its not-found route, or [route] by itself. *)
Fixpoint lineagesIn (route : Route) : list (list Route) :=
  map (cons route)
      (flat_map lineagesIn (route_childRoutes route)
         ++ alone (route_defaultRoute route)
         ++ alone (route_notFoundRoute route))
    ++ [[route]].

(** The same for one call of [findMatches]. *)
Definition lineages (routes : list Route) (d nf : option Route)
  : list (list Route) :=
  flat_map lineagesIn routes ++ alone d ++ alone nf.

Section Searching.

Context {paths : Path}.

(** What a search over the routes [tried] found: nothing when no pattern
    matches [path], and otherwise a chain that ends with the first route
    whose pattern matches, holding the params that pattern extracts. *)
Definition decidedBy (path : string) (tried : list Route)
    (found : option (list Match)) : Prop :=
  match found with
  | None =>
      Forall (fun r => extractParams (route_path r) path = None) tried
  | Some matches =>
      exists before r after deepest,
        tried = before ++ r :: after /\
        Forall (fun r' => extractParams (route_path r') path = None) before /\
        last matches = Some deepest /\
        match_route deepest = r /\
        extractParams (route_path r) path = Some (match_params deepest)
  end.

(** Modelled from the spec: what [dispatch] relies on in the two external
    collaborators, the route tree builder and the path matcher, neither
    of which is among the sources.  The specification gives their
    interfaces only (a route is created once with its declared
    [paramNames]; the matcher returns the parameters extracted for a
    pattern); the conditions below are how the library fills them:
    - every route of the tree is an object of its own;
    - the params that a route's pattern extracts from a path have exactly
      the route's declared [paramNames] as properties;
    - a nested route declares every parameter name of its parent (the
      builder refuses a child path that misses one);
    - no parameter is called [__proto__]. *)
Record wellBuilt (routes : list Route) (d nf : option Route) : Prop := {
  distinctRoutes :
    NoDup (map route_ref (triedRoutes routes d nf));
  ownParams :
    forall r path params,
      In r (triedRoutes routes d nf) ->
      extractParams (route_path r) path = Some params ->
      dom params = list_to_set (route_paramNames r);
  parentNames :
    forall parent child,
      In parent (triedRoutes routes d nf) ->
      reachedFrom parent child ->
      route_paramNames parent ⊆ route_paramNames child;
  noProto :
    forall r,
      In r (triedRoutes routes d nf) ->
      "__proto__" ∉ route_paramNames r
}.

(** The chains that the committed state of a router holds: none (a new
    router), or a chain that [match] returned for some path, up to the
    identity of the match objects. *)
Definition shows (routes : list Route) (d nf : option Route)
    (currentMatches : list Match) : Prop :=
  currentMatches = [] \/
  exists path chain,
    findMatches path routes d nf = Some chain /\
    Forall2 equalMatch currentMatches chain.

(** The routers that a new router over a tree becomes by dispatches and
    commits. *)
Inductive reached (routes : list Route) (d nf : option Route)
  : Router -> Prop :=
| reached_new : reached routes d nf (newRouter routes d nf)
| reached_dispatch (router router' : Router) (path : string)
    (t : Transition) (trace : list Event) :
    reached routes d nf router ->
    dispatch router path = Ran router' t trace ->
    reached routes d nf router'
| reached_flipSwitch (router : Router) :
    reached routes d nf router ->
    reached routes d nf (flipSwitch router).

End Searching.

(** ** Accounts of the steps of a dispatch *)


(** The promise that the reduction of [runHooks] waits for right after a
    handler call: the one a leaving hook returns, the one an entering hook
    leaves on the transition. *)
Definition waitOf (e : Event) : option Promise :=
  match e with
  | CallFrom _ (Normal _ ret) => ret
  | CallTo _ (Normal t _) => promise t
  | _ => None
  end.

(** Every such promise is waited for as the very next step. *)
Fixpoint honoured (trace : list Event) : Prop :=
  match trace with
  | [] => True
  | e :: rest =>
      match waitOf e with
      | Some p => head rest = Some (Await p)
      | None => True
      end /\ honoured rest
  end.


(** ** Building paths, and what follows a dispatch *)

(** The functions of [utils/Path.js] (an external collaborator) that
    [makePath] calls. *)
Class PathBuilder : Type := {
  isAbsolute : string -> bool;
  normalize : string -> string;
  injectParams : string -> Params -> string;
  withQuery : string -> Params -> string
}.

(** What the code of this module throws. *)
Inductive Exception : Type :=
| UnknownRoute (name : string)
    (* invariant(route, 'Unable to find a <Route> with name="%s"', to) *)
| NonDOM
    (* invariant(canUseDOM, 'You cannot use %s in a non-DOM environment') *)
| UndefinedPattern
    (* Path.injectParams(undefined, params): the TypeError that Path throws
       when it is given no pattern *)
| UnhandledAbort (abortReason : Reason)
    (* new Error('Unhandled aborted transition! Reason: ' + abortReason) *)
| Rethrown (error : Error)
    (* throw error, in defaultErrorHandler *)
| RefreshLocationNotDefined
    (* a ReferenceError: the module never binds RefreshLocation *)
| StateUndefined.
    (* a TypeError: a property of router.state is read when it is undefined *)

(** How a call of this module ends: it returns, with what it did (a
    dispatch it made has then called [dispatchHandler], maybe on a later
    turn); it throws; or it returns but the dispatch it made waits for a
    promise that never settles, so that [dispatchHandler] is never
    called. *)
Inductive Result (A : Type) : Type :=
| Returns (a : A)
| Throws (e : Exception)
| Hangs.

Arguments Returns {A} a.
Arguments Throws {A} e.
Arguments Hangs {A}.

(** The location objects of the library that [run] tells apart by
    identity, and any other one. *)
Inductive LocationKind : Type :=
| HashLocation
| HistoryLocation
| CustomLocation.

(** A location object, as far as [run] reads it: what [getCurrentPath()]
    gives, and whether it has [addChangeListener]. *)
Record LocationObject : Type := mkLocation {
  getCurrentPath : string;
  addChangeListener : bool
}.

(** The [location] of [run]: a string (a static location) or an object. *)
Inductive Location : Type :=
| StaticLocation (path : string)
| ObjectLocation (kind : LocationKind) (l : LocationObject).

(** The method that [defaultAbortHandler] calls on the location. *)
Inductive LocationCall : Type :=
| Replace (path : string)
| Pop.

(** What [dispatchHandler] calls: [router.onError(error)],
    [router.onAbort(abortReason, location)], or
    [callback(Handler, router._nextState)]. *)
Inductive Handled : Type :=
| OnError (error : Error)
| OnAbort (abortReason : Reason) (location : Location)
| CallbackWith (nextState : option State).

(** A dispatch made by [run] or by its change listener that called back:
    the router and the transition afterwards, the steps, and what
    [dispatchHandler] called when the dispatch called it back ([None] if
    the steps did not end with the callback, which no such dispatch
    does). *)
Record Dispatched : Type := mkDispatched {
  router_after : Router;
  transition_after : Transition;
  steps : list Event;
  handled : option Handled
}.

(** What [run] reads of the environment: [supportsHistory()], [canUseDOM]
    and the [HashLocation] object. *)
Record Environment : Type := mkEnvironment {
  supportsHistory : bool;
  canUseDOM : bool;
  hashLocation : LocationObject
}.

(** A call of [run] that returned: the location it settled on, whether it
    registered the change listener, and its bootstrap dispatch. *)
Record Running : Type := mkRunning {
  run_location : Location;
  listening : bool;
  bootstrap : Dispatched
}.

(** Whether an abort reason is truthy: a redirect is an object; of the
    other values, the empty string is falsy. *)
Definition truthy (abortReason : option Reason) : bool :=
  match abortReason with
  | Some (Redirect _ _ _) => true
  | Some (Other v) => negb (String.eqb v "")
  | None => false
  end.

Section Running.

Context {paths : Path} {builder : PathBuilder}.

(** [Router.prototype.makePath]; [namedRoutes] is [this.namedRoutes], the
    one property of the router that it reads: a plain object, holding the
    registered routes as its own properties.  For a name it does not have
    but [Object.prototype] has, [this.namedRoutes[to]] is that member of
    [Object.prototype], which is truthy, so that the invariant holds, and
    whose [path] is [undefined]. *)
Definition makePath (namedRoutes : gmap string Route) (to : string)
    (params query : Params) : Result string :=
  let path : Result (option string) :=
    if isAbsolute to then Returns (Some (normalize to))
    else
      match namedRoutes !! to with
      | Some route => Returns (Some (route_path route))
      | None =>
          if bool_decide (to ∈ prototypeNames) then Returns None
          else Throws (UnknownRoute to)
      end in
  match path with
  | Returns (Some path) =>
      Returns (withQuery (injectParams path params) query)
  | Returns None => Throws UndefinedPattern
  | Throws e => Throws e
  | Hangs => Hangs
  end.

Definition defaultErrorHandler (error : Error) : Result unit :=
  Throws (Rethrown error).

(** [defaultAbortHandler], bound to a router with these [namedRoutes]; it
    is called with a truthy [abortReason]. *)
Definition defaultAbortHandler (namedRoutes : gmap string Route)
    (abortReason : Reason) (location : Location) : Result LocationCall :=
  match location with
  | StaticLocation _ => Throws (UnhandledAbort abortReason)
  | ObjectLocation _ _ =>
      match abortReason with
      | Redirect to params query =>
          match makePath namedRoutes to params query with
          | Returns path => Returns (Replace path)
          | Throws e => Throws e
          | Hangs => Hangs
          end
      | Other _ => Returns Pop
      end
  end.

(** [dispatchHandler(error, abortReason)] inside [run]; [router] is the
    router at the time of the call. *)
Definition dispatchHandler (router : Router) (location : Location)
    (error : option Error) (abortReason : option Reason) : Handled :=
  match error with
  | Some error => OnError error
  | None =>
      match abortReason with
      | Some reason =>
          if truthy abortReason then OnAbort reason location
          else CallbackWith (_nextState router)
      | None => CallbackWith (_nextState router)
      end
  end.

(** [router.dispatch(path, dispatchHandler)] *)
Definition dispatchAndHandle (router : Router) (location : Location)
    (path : string) : Result Dispatched :=
  match dispatch router path with
  | TypeError => Throws StateUndefined
  | Stalled _ => Hangs
  | Ran router' transition trace =>
      Returns
        {| router_after := router';
           transition_after := transition;
           steps := trace;
           handled :=
             match last trace with
             | Some (Callback error abortReason) =>
                 Some (dispatchHandler router' location error abortReason)
             | _ => None
             end |}
  end.

(** [changeListener(change)] inside [run], for [change.path]: [None] when
    it does not dispatch. *)
Definition changeListener (router : Router) (location : Location)
    (changePath : string) : Result (option Dispatched) :=
  match state router with
  | UndefinedState => Throws StateUndefined
  | EmptyObject =>
      match dispatchAndHandle router location changePath with
      | Returns d => Returns (Some d)
      | Throws e => Throws e
      | Hangs => Hangs
      end
  | Resolved s =>
      if bool_decide (state_path s = changePath) then Returns None
      else
        match dispatchAndHandle router location changePath with
        | Returns d => Returns (Some d)
        | Throws e => Throws e
        | Hangs => Hangs
        end
  end.

(** [Router.run(router, location, callback)] for a [router] that is a
    [Router] already; [location] is [None] when the second argument is the
    callback. *)
Definition run (env : Environment) (router : Router)
    (location : option Location) : Result Running :=
  let location :=
    default (ObjectLocation HashLocation (hashLocation env)) location in
  match location with
  | StaticLocation path =>
      match dispatchAndHandle router location path with
      | Returns d =>
          Returns {| run_location := location; listening := false;
                     bootstrap := d |}
      | Throws e => Throws e
      | Hangs => Hangs
      end
  | ObjectLocation kind l =>
      match kind, supportsHistory env with
      | HistoryLocation, false => Throws RefreshLocationNotDefined
      | _, _ =>
          if negb (canUseDOM env) then Throws NonDOM
          else
            match dispatchAndHandle router location (getCurrentPath l) with
            | Returns d =>
                Returns {| run_location := location;
                           listening := addChangeListener l;
                           bootstrap := d |}
            | Throws e => Throws e
            | Hangs => Hangs
            end
      end
  end.

End Running.

(** ** Example data for paths and [run] *)




(** A tree whose outer route declares a name that its child's pattern
    lacks, the name [constructor], which every object inherits. *)
Definition termsRoute : Route := leaf 34 "/terms" [] noHooks.
Definition makerRoute : Route :=
  mkRoute 33 "/by/:constructor" ["constructor"] [termsRoute] None None
          noHooks.

(** A small instance of the path functions that [makePath] calls: a path
    is absolute when it starts with a slash, the examples' paths are
    normalized already and carry no query, and a [:name] segment of a
    pattern is replaced by the value of the parameter. *)
Definition startsWithSlash (s : string) : bool := String.prefix "/" s.

Definition injectSegments (pattern : string) (params : Params) : string :=
  String.concat "/"
    (map (fun segment =>
            if String.prefix ":" segment then
              match get params
                      (String.substring 1 (String.length segment - 1) segment)
              with
              | str v => v
              | undefined | inherited _ => ""
              end
            else segment)
         (segments pattern)).

Definition pathOnly (path : string) (query : Params) : string := path.

Definition simpleBuilder : PathBuilder :=
  {| isAbsolute := startsWithSlash;
     normalize := keepPath;
     injectParams := injectSegments;
     withQuery := pathOnly |}.

(** The named routes of the documentation's tree. *)
Definition namedBlog : gmap string Route :=
  {["posts" := postsRoute; "post" := postRoute]}.

(** A server, at [#/posts]. *)
Definition atPosts : LocationObject :=
  {| getCurrentPath := "/posts"; addChangeListener := true |}.

Definition server : Environment :=
  {| supportsHistory := false; canUseDOM := false; hashLocation := atPosts |}.

Definition exampleRun : Environment -> Router -> option Location
                        -> Result Running :=
  @run simplePath.



(** * Properties *)

Section Properties.

Context {paths : Path}.

(** ** The matcher: properties *)

(** The recursion of the source: an iteration for [route] is the recursive
    call on its children with its own fallback routes, then its own
    pattern. *)
Lemma visit_unfold (path : string) (route : Route) :
  visit path route =
  match findMatches path (route_childRoutes route)
          (route_defaultRoute route) (route_notFoundRoute route) with
  | Some matches =>
      let rootParams :=
        match getRootMatch matches with
        | Some root => match_params root
        | None => ∅
        end in
      Some (newMatch route
              (reduceParamNames (route_paramNames route) rootParams)
            :: matches)
  | None =>
      match extractParams (route_path route) path with
      | Some params => Some [newMatch route params]
      | None => None
      end
  end.
Proof. destruct route; reflexivity. Qed.

Lemma findMatches_nil (path : string) (d nf : option Route) :
  findMatches path [] d nf = fallback path d nf.
Proof. reflexivity. Qed.

Lemma findMatches_cons (path : string) (route : Route) (rest : list Route)
    (d nf : option Route) :
  findMatches path (route :: rest) d nf =
  match visit path route with
  | Some matches => Some matches
  | None => findMatches path rest d nf
  end.
Proof. reflexivity. Qed.

Lemma findMatches_first (path : string) (before after : list Route)
    (route : Route) (d nf : option Route) (matches : list Match) :
  Forall (fun r => visit path r = None) before ->
  visit path route = Some matches ->
  findMatches path (before ++ route :: after) d nf = Some matches.
Proof.
  intros Hbefore Hroute.
  induction Hbefore as [|r before Hr _ IH]; cbn [app].
  - rewrite findMatches_cons, Hroute. reflexivity.
  - rewrite findMatches_cons, Hr. exact IH.
Qed.

Lemma findMatches_none (path : string) (routes : list Route)
    (d nf : option Route) :
  Forall (fun r => visit path r = None) routes ->
  findMatches path routes d nf = fallback path d nf.
Proof.
  induction 1 as [|r routes Hr _ IH]; [reflexivity|].
  rewrite findMatches_cons, Hr. exact IH.
Qed.

Lemma matchAlone_nonempty (path : string) (r : option Route)
    (matches : list Match) :
  matchAlone path r = Some matches -> matches <> [].
Proof.
  unfold matchAlone. destruct r as [route|]; [|discriminate].
  destruct (extractParams _ _); [|discriminate].
  intros [= <-]. discriminate.
Qed.

Lemma visit_nonempty (path : string) (route : Route) (matches : list Match) :
  visit path route = Some matches -> matches <> [].
Proof.
  rewrite visit_unfold.
  destruct (findMatches _ _ _ _); [intros [= <-]; discriminate|].
  destruct (extractParams _ _); [|discriminate].
  intros [= <-]. discriminate.
Qed.

(** A chain that [findMatches] returns is never empty, so its caller's
    [getRootMatch(matches).params] never reads a property of [undefined]. *)
Lemma findMatches_nonempty (path : string) (routes : list Route)
    (d nf : option Route) (matches : list Match) :
  findMatches path routes d nf = Some matches -> matches <> [].
Proof.
  induction routes as [|route rest IH].
  - rewrite findMatches_nil. unfold fallback.
    destruct (matchAlone path d) eqn:Hd.
    + intros [= <-]. eapply matchAlone_nonempty, Hd.
    + apply matchAlone_nonempty.
  - rewrite findMatches_cons. destruct (visit path route) eqn:Hv.
    + intros [= <-]. eapply visit_nonempty, Hv.
    + exact IH.
Qed.

(** C1: the search of [findMatches].  For every route, the subtree is tried
    before the route's own pattern: a chain found below the route is
    returned with the route in front, whatever the route's own pattern
    says, and the own pattern is matched only when the subtree gave null.
    Among siblings, the first route in declaration order whose iteration
    returns a chain decides the result, whatever follows it.  When every
    sibling fails, the default route's pattern decides; when that fails
    too (or there is no default route) the not-found route's pattern
    decides; otherwise the result is null. *)
Theorem findMatches_search (path : string) :
  (forall route sub,
     findMatches path (route_childRoutes route) (route_defaultRoute route)
                 (route_notFoundRoute route) = Some sub ->
     exists deepest,
       last sub = Some deepest /\
       visit path route =
       Some (newMatch route
               (reduceParamNames (route_paramNames route)
                                 (match_params deepest))
             :: sub)) /\
  (forall route,
     findMatches path (route_childRoutes route) (route_defaultRoute route)
                 (route_notFoundRoute route) = None ->
     visit path route =
     (fun params => [newMatch route params])
       <$> extractParams (route_path route) path) /\
  (forall before route after d nf matches,
     Forall (fun r => visit path r = None) before ->
     visit path route = Some matches ->
     findMatches path (before ++ route :: after) d nf = Some matches) /\
  (forall routes d nf,
     Forall (fun r => visit path r = None) routes ->
     (forall dr params,
        d = Some dr -> extractParams (route_path dr) path = Some params ->
        findMatches path routes d nf = Some [newMatch dr params]) /\
     (forall nr params,
        matchAlone path d = None ->
        nf = Some nr -> extractParams (route_path nr) path = Some params ->
        findMatches path routes d nf = Some [newMatch nr params]) /\
     (matchAlone path d = None -> matchAlone path nf = None ->
      findMatches path routes d nf = None)).
Proof.
  split; [|split; [|split]].
  - intros route sub Hsub. rewrite visit_unfold, Hsub.
    unfold getRootMatch.
    destruct (last sub) as [deepest|] eqn:Hlast; [eauto|].
    apply last_None in Hlast.
    apply findMatches_nonempty in Hsub. contradiction.
  - intros route Hsub. rewrite visit_unfold, Hsub.
    destruct (extractParams _ _); reflexivity.
  - intros. eapply findMatches_first; eassumption.
  - intros routes d nf Hall.
    rewrite (findMatches_none _ _ _ _ Hall). unfold fallback.
    split; [|split].
    + intros dr params -> Hdr. simpl. rewrite Hdr. reflexivity.
    + intros nr params Hd -> Hnr. rewrite Hd. simpl. rewrite Hnr.
      reflexivity.
    + intros Hd Hnf. rewrite Hd. exact Hnf.
Qed.

(** ** Comparing and diffing matches: properties *)

Lemma sameRoute_true (a b : Route) :
  sameRoute a b = true <-> route_ref a = route_ref b.
Proof. unfold sameRoute. apply bool_decide_eq_true. Qed.

Lemma sameProperties_true (mparams matchparams : Params) :
  sameProperties mparams matchparams = true <->
  forall property v,
    mparams !! property = Some v -> get matchparams property = v.
Proof.
  unfold sameProperties. rewrite bool_decide_eq_true. unfold map_Forall.
  split; intros H property v Hv; specialize (H property v Hv); congruence.
Qed.

Lemma sameProperties_refl (mparams : Params) :
  sameProperties mparams mparams = true.
Proof.
  apply sameProperties_true. intros property v Hv. unfold get.
  rewrite Hv. reflexivity.
Qed.

(** With the same property names on both sides, the one-directional loop
    decides equality of the two objects. *)
Lemma sameProperties_same_names (mparams matchparams : Params) :
  dom mparams = dom matchparams ->
  sameProperties mparams matchparams = true <-> mparams = matchparams.
Proof.
  intros Hdom. split; [|intros ->; apply sameProperties_refl].
  rewrite sameProperties_true. intros H. apply map_eq. intros k.
  destruct (mparams !! k) as [v|] eqn:Hk.
  - specialize (H k v Hk).
    assert (Hin : k ∈ dom matchparams).
    { rewrite <- Hdom. apply elem_of_dom. eauto. }
    apply elem_of_dom in Hin as [w Hw]. unfold get in H.
    rewrite Hw in H. simpl in H. congruence.
  - symmetry. apply not_elem_of_dom. rewrite <- Hdom.
    apply not_elem_of_dom. exact Hk.
Qed.

Lemma hasMatch_true (matches : list Match) (match_ : Match) :
  hasMatch matches match_ = true <->
  exists m,
    In m matches /\
    route_ref (match_route m) = route_ref (match_route match_) /\
    sameProperties (match_params m) (match_params match_) = true.
Proof.
  unfold hasMatch. rewrite existsb_exists.
  split; intros (m & Hin & H); exists m; (split; [exact Hin|]).
  - destruct (sameRoute _ _) eqn:Hr; simpl in H; [|discriminate].
    apply sameRoute_true in Hr. auto.
  - destruct H as [Hr Hp]. apply sameRoute_true in Hr. rewrite Hr.
    exact Hp.
Qed.


Lemma filter_keeps_all {A : Type} (f : A -> bool) (l : list A) :
  (forall x, In x l -> f x = true) -> List.filter f l = l.
Proof.
  induction l as [|x l IH]; intros H; [reflexivity|]. simpl.
  rewrite (H x (or_introl eq_refl)). f_equal.
  apply IH. intros y Hy. apply H. right. exact Hy.
Qed.

Lemma filter_drops_all {A : Type} (f : A -> bool) (l : list A) :
  (forall x, In x l -> f x = false) -> List.filter f l = [].
Proof.
  induction l as [|x l IH]; intros H; [reflexivity|]. simpl.
  rewrite (H x (or_introl eq_refl)).
  apply IH. intros y Hy. apply H. right. exact Hy.
Qed.

(** Members of a shared prefix have a counterpart in the other chain. *)
Lemma hasMatch_shared (shared shared' rest : list Match) (a : Match) :
  Forall2 equalMatch shared shared' ->
  In a shared ->
  hasMatch (shared' ++ rest) a = true.
Proof.
  intros Hshared Hin.
  assert (Hb : exists b, In b shared' /\ equalMatch a b).
  { induction Hshared as [|x y l l' Hxy _ IH]; [contradiction|].
    destruct Hin as [->|Hin].
    - exists y. split; [left; reflexivity|exact Hxy].
    - destruct (IH Hin) as (b & Hb & Hab). exists b. split; [right|]; auto. }
  destruct Hb as (b & Hb & Hr & Hp).
  apply hasMatch_true. exists b. split; [apply in_or_app; left; exact Hb|].
  split; [symmetry; exact Hr|]. rewrite Hp. apply sameProperties_refl.
Qed.

Lemma equalMatch_sym (a b : Match) : equalMatch a b -> equalMatch b a.
Proof. intros [Hr Hp]. split; congruence. Qed.

Lemma Forall2_equalMatch_sym (l l' : list Match) :
  Forall2 equalMatch l l' -> Forall2 equalMatch l' l.
Proof.
  induction 1; constructor; auto using equalMatch_sym.
Qed.

(** Members after the shared prefix have no counterpart, provided matches of
    one route carry the same property names in both chains. *)
Lemma hasMatch_unshared (others : list Match) (a : Match) :
  (forall b, In b others ->
             route_ref (match_route b) = route_ref (match_route a) ->
             dom (match_params b) = dom (match_params a)) ->
  (forall b, In b others -> ~ equalMatch b a) ->
  hasMatch others a = false.
Proof.
  intros Hnames Hnone. apply not_true_is_false. intros Hhas.
  apply hasMatch_true in Hhas as (b & Hb & Hr & Hp).
  apply (Hnone b Hb). split; [exact Hr|].
  apply sameProperties_same_names; auto.
Qed.

(** When the current chain and the next chain begin with pairwise-equal
    matches, no match after that beginning equals a match of the other
    chain, and matches of one route carry the same parameter names in both
    chains, the leaving matches are the rest of the current chain and the
    entering matches the rest of the next chain. *)
Lemma diffMatches_split (shared shared' restA restB : list Match) :
  Forall2 equalMatch shared shared' ->
  (forall a b,
     In a (shared ++ restA) -> In b (shared' ++ restB) ->
     route_ref (match_route a) = route_ref (match_route b) ->
     dom (match_params a) = dom (match_params b)) ->
  (forall a b,
     In a restA -> In b (shared' ++ restB) -> ~ equalMatch a b) ->
  (forall a b,
     In a (shared ++ restA) -> In b restB -> ~ equalMatch a b) ->
  diffMatches (shared ++ restA) (shared' ++ restB) = (restA, restB).
Proof.
  intros Hshared Hnames HrestA HrestB.
  assert (Hfrom :
    List.filter (fun m => negb (hasMatch (shared' ++ restB) m))
                (shared ++ restA) = restA).
  { rewrite List.filter_app.
    rewrite filter_drops_all, filter_keeps_all; [reflexivity| |].
    - intros a Ha. apply negb_true_iff, hasMatch_unshared.
      + intros b Hb Hr. apply eq_sym, Hnames; auto.
        apply in_or_app. right. exact Ha.
      + intros b Hb Hab. apply (HrestA a b Ha Hb), equalMatch_sym, Hab.
    - intros a Ha. apply negb_false_iff.
      eapply hasMatch_shared; eassumption. }
  assert (Hto :
    List.filter (fun m => negb (hasMatch (shared ++ restA) m))
                (shared' ++ restB) = restB).
  { rewrite List.filter_app.
    rewrite filter_drops_all, filter_keeps_all; [reflexivity| |].
    - intros b Hb. apply negb_true_iff, hasMatch_unshared.
      + intros a Ha Hr. apply Hnames; auto.
        apply in_or_app. right. exact Hb.
      + intros a Ha. apply HrestB; assumption.
    - intros b Hb. apply negb_false_iff.
      eapply hasMatch_shared; [|exact Hb].
      apply Forall2_equalMatch_sym, Hshared. }
  unfold diffMatches.
  destruct (shared ++ restA) as [|x l] eqn:HA.
  - apply app_eq_nil in HA as [-> ->]. inversion Hshared. reflexivity.
  - rewrite Hfrom, Hto. reflexivity.
Qed.

(** ** Running the hooks: properties *)

Lemma runHooks_eq {R : Type} (hooks : list Hook) (transition : Transition)
    (callback : option Error -> Transition -> list Event * option R) :
  runHooks hooks transition callback =
  let '(t, chain, trace) :=
    fold_left reduceStep hooks (transition, Null, []) in
  if waiting chain then (trace, None)
  else
    let '(after, r) := callback (errorOf chain) t in
    (trace ++ deferral chain ++ after, r).
Proof.
  unfold runHooks.
  destruct (fold_left _ _ _) as [[t chain] trace].
  destruct chain; simpl; try destruct (callback _ t); reflexivity.
Qed.

(** [dispatch] with the two phases written out. *)
Lemma dispatch_eq (router : Router) (path : string) :
  dispatch router path =
  match currentMatchesOf (state router) with
  | None => TypeError
  | Some currentMatches =>
      let nextMatches := default [] (Router_match router path) in
      let fromMatches := fst (diffMatches currentMatches nextMatches) in
      let toMatches := snd (diffMatches currentMatches nextMatches) in
      let query := default ∅ (extractQuery path) in
      let '(t1, c1, tr1) :=
        fold_left reduceStep (map fromHook (reverse fromMatches))
                  (newTransition path, Null, []) in
      if waiting c1 then Stalled tr1
      else if failed (errorOf c1) t1
      then Ran router t1
             (tr1 ++ deferral c1 ++ [Callback (errorOf c1) (abortReason t1)])
      else
        let '(t2, c2, tr2) :=
          fold_left reduceStep (map (toHook query) toMatches)
                    (t1, Null, []) in
        if waiting c2 then Stalled (tr1 ++ deferral c1 ++ tr2)
        else if failed (errorOf c2) t2
        then Ran router t2
               (tr1 ++ deferral c1 ++ tr2 ++ deferral c2
                    ++ [Callback (errorOf c2) (abortReason t2)])
        else Ran (setNextState router
                    (resolvedState path query currentMatches fromMatches
                                   toMatches))
                 t2
                 (tr1 ++ deferral c1 ++ tr2 ++ deferral c2
                      ++ [Callback None None])
  end.
Proof.
  unfold dispatch.
  destruct (currentMatchesOf (state router)) as [currentMatches|];
    [|reflexivity].
  destruct (diffMatches _ _) as [fromMatches toMatches]. cbn [fst snd].
  unfold runTransitionFromHooks. rewrite runHooks_eq.
  destruct (fold_left _ _ _) as [[t1 c1] tr1].
  destruct (waiting c1); [reflexivity|].
  destruct (failed (errorOf c1) t1); [reflexivity|].
  unfold runTransitionToHooks. rewrite runHooks_eq.
  destruct (fold_left _ _ _) as [[t2 c2] tr2].
  destruct (waiting c2); [reflexivity|].
  destruct (failed (errorOf c2) t2); reflexivity.
Qed.

(** ** The pending state and the commit *)

(** A dispatch whose callback got no error and whose transition was not
    aborted stored the state computed from the two halves of the diff, and
    changed nothing else of the router. *)
Lemma dispatch_success (router router' : Router) (path : string)
    (t : Transition) (trace : list Event) (reason : option Reason) :
  dispatch router path = Ran router' t trace ->
  last trace = Some (Callback None reason) ->
  isAborted t = false ->
  exists currentMatches,
    currentMatchesOf (state router) = Some currentMatches /\
    let nextMatches := default [] (Router_match router path) in
    router' =
    setNextState router
      (resolvedState path (default ∅ (extractQuery path)) currentMatches
         (fst (diffMatches currentMatches nextMatches))
         (snd (diffMatches currentMatches nextMatches))).
Proof.
  rewrite dispatch_eq.
  destruct (currentMatchesOf (state router)) as [currentMatches|];
    [|discriminate].
  cbv zeta.
  destruct (fold_left _ _ _) as [[t1 c1] tr1].
  destruct (waiting c1) eqn:Hw1; [discriminate|].
  destruct (failed (errorOf c1) t1) eqn:Hf1.
  { intros [= <- <- <-] Hlast Ht. exfalso.
    rewrite app_assoc, last_snoc in Hlast. injection Hlast as He _.
    unfold failed in Hf1. rewrite He in Hf1. congruence. }
  destruct (fold_left _ _ _) as [[t2 c2] tr2].
  destruct (waiting c2) eqn:Hw2; [discriminate|].
  destruct (failed (errorOf c2) t2) eqn:Hf2.
  { intros [= <- <- <-] Hlast Ht. exfalso.
    rewrite !app_assoc, last_snoc in Hlast. injection Hlast as He _.
    unfold failed in Hf2. rewrite He in Hf2. congruence. }
  intros [= <- <- <-] _ _. exists currentMatches. auto.
Qed.

(** When the leaving matches are the end of the current chain, the matches
    that the slice keeps are the current matches that have a counterpart
    in the next chain. *)
Lemma slice_keeps_unchanged (currentMatches nextMatches kept : list Match) :
  currentMatches = kept ++ fst (diffMatches currentMatches nextMatches) ->
  take (length currentMatches
        - length (fst (diffMatches currentMatches nextMatches)))
       currentMatches
  = List.filter (hasMatch nextMatches) currentMatches.
Proof.
  unfold diffMatches.
  destruct currentMatches as [|x l] eqn:Hcur; [reflexivity|].
  rewrite <- Hcur. cbn [fst].
  set (f := fun match_ => negb (hasMatch nextMatches match_)).
  set (leaving := List.filter f currentMatches).
  intros Hsplit.
  assert (Hleaving : forall m, In m leaving -> f m = true).
  { intros m Hm. apply filter_In in Hm. tauto. }
  assert (Hkept : List.filter f kept = []).
  { assert (Hlen : length (List.filter f kept ++ leaving) = length leaving).
    { rewrite <- (filter_keeps_all f leaving Hleaving) at 1.
      rewrite <- List.filter_app, <- Hsplit. reflexivity. }
    rewrite length_app in Hlen.
    destruct (List.filter f kept); [reflexivity|simpl in Hlen; lia]. }
  rewrite Hsplit at 1 2 3. rewrite length_app.
  replace (length kept + length leaving - length leaving)
    with (length kept) by lia.
  rewrite take_app_length, List.filter_app.
  rewrite (filter_drops_all (hasMatch nextMatches) leaving).
  - rewrite app_nil_r. symmetry. apply filter_keeps_all.
    intros m Hm. destruct (hasMatch nextMatches m) eqn:Hhas; [reflexivity|].
    assert (Hin : In m (List.filter f kept)).
    { apply filter_In. split; [exact Hm|]. unfold f. rewrite Hhas.
      reflexivity. }
    rewrite Hkept in Hin. contradiction.
  - intros m Hm. apply Hleaving in Hm. unfold f in Hm.
    apply negb_true_iff in Hm. exact Hm.
Qed.

(** After a dispatch that ended with no error and no abort and whose
    leaving matches are the end of the current chain, the pending state's
    matches are the current matches that are not leaving, in order,
    followed by the entering matches; its routes are the routes of those
    matches in order, its path the dispatched path, its query the parsed
    query (the empty object when there is none); and the committed state
    is as it was. *)
Lemma pending_state_sliced (router router' : Router) (path : string)
    (t : Transition) (trace : list Event) (reason : option Reason)
    (currentMatches kept : list Match) :
  let nextMatches := default [] (Router_match router path) in
  let leaving := fst (diffMatches currentMatches nextMatches) in
  let entering := snd (diffMatches currentMatches nextMatches) in
  dispatch router path = Ran router' t trace ->
  last trace = Some (Callback None reason) ->
  isAborted t = false ->
  currentMatchesOf (state router) = Some currentMatches ->
  currentMatches = kept ++ leaving ->
  exists s,
    _nextState router' = Some s /\
    state_matches s =
      List.filter (hasMatch nextMatches) currentMatches ++ entering /\
    state_matches s = kept ++ entering /\
    state_routes s = map match_route (state_matches s) /\
    state_path s = path /\
    state_query s = default ∅ (extractQuery path) /\
    state router' = state router.
Proof.
  intros nextMatches leaving entering Hrun Hlast Ht Hcur Hkept.
  destruct (dispatch_success _ _ _ _ _ _ Hrun Hlast Ht)
    as (currentMatches' & Hcur' & ->).
  assert (currentMatches' = currentMatches) as -> by congruence.
  eexists. split; [reflexivity|]. cbn.
  fold nextMatches. fold leaving. fold entering.
  split; [|split; [|repeat split]].
  - f_equal. exact (slice_keeps_unchanged _ _ _ Hkept).
  - f_equal. rewrite Hkept at 1 2. rewrite length_app.
    replace (length kept + length leaving - length leaving)
      with (length kept) by lia.
    apply take_app_length.
Qed.

(** C9 (amended): in the pending state of a successful dispatch,
    [params] is the parameter mapping of the last match of the final chain,
    the innermost one, which is what [getRootMatch] returns; it is the
    empty mapping when the final chain is empty. *)
Theorem dispatch_pending_params (router router' : Router) (path : string)
    (t : Transition) (trace : list Event) (reason : option Reason) :
  dispatch router path = Ran router' t trace ->
  last trace = Some (Callback None reason) ->
  isAborted t = false ->
  exists s,
    _nextState router' = Some s /\
    state_params s =
    match last (state_matches s) with
    | Some deepest => match_params deepest
    | None => ∅
    end.
Proof.
  intros Hrun Hlast Ht.
  destruct (dispatch_success _ _ _ _ _ _ Hrun Hlast Ht)
    as (currentMatches & Hcur & ->).
  eexists. split; reflexivity.
Qed.

(** X5: a dispatch that ended with no error and no abort stored, as the
    pending state, the current chain cut at its end by as many matches as
    are leaving and followed by the entering matches, with the routes of
    these matches, the params of the last of them, the dispatched path and
    the parsed query; nothing else of the router changed. *)
Theorem dispatch_stores_next_state (router router' : Router) (path : string)
    (t : Transition) (trace : list Event) (reason : option Reason) :
  dispatch router path = Ran router' t trace ->
  last trace = Some (Callback None reason) ->
  isAborted t = false ->
  exists currentMatches,
    currentMatchesOf (state router) = Some currentMatches /\
    let nextMatches := default [] (Router_match router path) in
    let leaving := fst (diffMatches currentMatches nextMatches) in
    let entering := snd (diffMatches currentMatches nextMatches) in
    let matches :=
      take (length currentMatches - length leaving) currentMatches
        ++ entering in
    router' =
    setNextState router
      {| state_matches := matches;
         state_path := path;
         state_routes := map match_route matches;
         state_params := match last matches with
                         | Some deepest => match_params deepest
                         | None => ∅
                         end;
         state_query := default ∅ (extractQuery path) |}.
Proof.
  intros Hrun Hlast Ht.
  destruct (dispatch_success _ _ _ _ _ _ Hrun Hlast Ht)
    as (currentMatches & Hcur & ->).
  exists currentMatches. split; [exact Hcur|reflexivity].
Qed.

(** C10: [flipSwitch] assigns the pending slot to the committed state and
    deletes the pending slot, whatever the slot holds: with no pending state
    the committed state becomes [undefined], so it does after a second
    commit in a row and after a commit on a fresh router. *)
Theorem flipSwitch_unconditional (router : Router) :
  state (flipSwitch router) =
    match _nextState router with
    | Some s => Resolved s
    | None => UndefinedState
    end /\
  _nextState (flipSwitch router) = None /\
  state (flipSwitch (flipSwitch router)) = UndefinedState /\
  state (flipSwitch (newRouter (routes router) (defaultRoute router)
                               (notFoundRoute router)))
    = UndefinedState.
Proof. repeat split. Qed.

(** ** Aborting halts the hooks *)



(** A hook function either skips its handler and consumes the promise
    field, or, on a transition that is not aborted, makes one handler call
    whose completion decides the abort flag and reason it leaves. *)
Lemma phaseHook_cases (h : Hook) (t : Transition) :
  phaseHook h ->
  h t = ([], consumePromise t) \/
  (isAborted t = false /\
   exists call c,
     fst (h t) = [call] /\
     completionOf call = Some c /\
     isAborted (transitionOf (snd (h t))) = isAborted (transitionOf c) /\
     abortReason (transitionOf (snd (h t))) = abortReason (transitionOf c)).
Proof.
  intros [[m ->]|[query [m ->]]].
  - unfold fromHook.
    destruct (isAborted t) eqn:Ha; simpl; [left; reflexivity|].
    destruct (willTransitionFrom _) as [hook|]; [|left; reflexivity].
    right. split; [reflexivity|]. eexists _, _. simpl. eauto.
  - unfold toHook.
    destruct (isAborted t) eqn:Ha; simpl; [left; reflexivity|].
    destruct (willTransitionTo _) as [hook|]; [|left; reflexivity].
    right. split; [reflexivity|].
    destruct (hook t (match_params m) query) as [t' ret|t' e] eqn:Hc;
      eexists _, _; simpl; rewrite ?Hc; simpl; eauto.
Qed.

(** A step of the reduction either leaves everything as it is (the chain
    already failed, or waits for ever) or runs the hook and then possibly
    yields. *)
Lemma reduceStep_cases (t : Transition) (chain : Chain) (trace : list Event)
    (h : Hook) :
  reduceStep (t, chain, trace) h = (t, chain, trace) \/
  exists t' chain' turn,
    Forall (fun e => isTurn e = true) turn /\
    reduceStep (t, chain, trace) h =
    (t', chain', trace ++ fst (h t) ++ turn).
Proof.
  unfold reduceStep.
  destruct chain;
    [| |left; reflexivity|left; reflexivity|left; reflexivity];
    right; destruct (h t) as [calls [t' [p|]|t' e]]; simpl;
    first
      [ solve [eexists _, _, [_]; split; [|reflexivity]; repeat constructor]
      | solve [eexists _, _, []; rewrite app_nil_r; split;
               [constructor|reflexivity]] ].
Qed.


Lemma turn_not_call (l : list Event) :
  Forall (fun e => isTurn e = true) l ->
  Forall (fun e => isCall e = false) l.
Proof.
  intros H. eapply Forall_impl; [exact H|]. intros [] He; simpl in *;
    congruence.
Qed.

Lemma fromHooks_phase (matches : list Match) :
  Forall phaseHook (map fromHook matches).
Proof.
  apply Forall_map, Forall_forall. intros m _. left. eauto.
Qed.

Lemma toHooks_phase (query : Params) (matches : list Match) :
  Forall phaseHook (map (toHook query) matches).
Proof.
  apply Forall_map, Forall_forall. intros m _. right. eauto.
Qed.

Lemma app_snoc4 {A : Type} (a b c d : list A) (x : A) :
  a ++ b ++ c ++ d ++ [x] = (a ++ b ++ c ++ d) ++ [x].
Proof. rewrite <- !app_assoc. reflexivity. Qed.














(** A dispatch that leaves its transition aborted hands the transition's
    abort reason to the callback and returns the router as it was. *)
Lemma dispatch_aborted (router router' : Router) (path : string)
    (t : Transition) (trace : list Event) :
  dispatch router path = Ran router' t trace ->
  isAborted t = true ->
  router' = router /\
  exists error, last trace = Some (Callback error (abortReason t)).
Proof.
  rewrite dispatch_eq.
  destruct (currentMatchesOf (state router)) as [currentMatches|];
    [|discriminate].
  cbv zeta.
  destruct (fold_left _ _ _) as [[t1 c1] tr1].
  destruct (waiting c1) eqn:Hw1; [discriminate|].
  destruct (failed (errorOf c1) t1) eqn:Hf1.
  { intros [= <- <- <-] _. split; [reflexivity|].
    exists (errorOf c1). rewrite app_assoc. apply last_snoc. }
  destruct (fold_left _ _ _) as [[t2 c2] tr2].
  destruct (waiting c2) eqn:Hw2; [discriminate|].
  destruct (failed (errorOf c2) t2) eqn:Hf2.
  { intros [= <- <- <-] _. split; [reflexivity|].
    exists (errorOf c2). rewrite !app_assoc. apply last_snoc. }
  intros [= <- <- <-] Ha. unfold failed in Hf2.
  destruct (errorOf c2); congruence.
Qed.

(** The account of a chain that waits for ever, over the reduction. *)
Lemma stallRecorded_step (t : Transition) (chain : Chain)
    (trace : list Event) (h : Hook) :
  phaseHook h ->
  stallRecorded chain trace ->
  let '(_, chain', trace') := reduceStep (t, chain, trace) h in
  stallRecorded chain' trace'.
Proof.
  intros Hh Hinv.
  assert (Hcalls : Forall (fun e => awaitsForever e = false) (fst (h t))).
  { destruct (phaseHook_cases h t Hh)
      as [->|(_ & call & c & -> & Hc & _)]; [constructor|].
    repeat constructor. destruct call; try discriminate; reflexivity. }
  unfold reduceStep.
  destruct chain; try exact Hinv; unfold stallRecorded in Hinv;
    cbn [waiting] in Hinv;
    destruct (h t) as [calls [t' [p|]|t' e]]; cbn [fst] in Hcalls;
    unfold stallRecorded, settle; cbn [waiting];
    try (destruct (settles p) eqn:Hp; cbn [waiting]);
    rewrite ?app_assoc;
    try solve [ repeat (apply Forall_app; split); auto;
                repeat constructor; cbn [awaitsForever]; rewrite ?Hp;
                reflexivity ];
    (eexists _, p; split; [reflexivity|]; split; [exact Hp|];
     apply Forall_app; split; assumption).
Qed.

Lemma stallRecorded_fold (hooks : list Hook) :
  Forall phaseHook hooks ->
  forall t chain trace,
    stallRecorded chain trace ->
    let '(_, chain', trace') := fold_left reduceStep hooks (t, chain, trace) in
    stallRecorded chain' trace'.
Proof.
  induction 1 as [|h hooks Hh _ IH]; intros t chain trace Hinv;
    cbn [fold_left].
  - exact Hinv.
  - pose proof (stallRecorded_step t chain trace h Hh Hinv) as Hstep.
    destruct (reduceStep (t, chain, trace) h) as [[t1 c1] tr1].
    apply IH, Hstep.
Qed.

(** A dispatch that waits for ever ends with the wait for a promise that
    never settles; a dispatch that calls back waits for no such promise. *)
Lemma dispatch_stallRecorded (router : Router) (path : string) :
  match dispatch router path with
  | TypeError => True
  | Ran _ _ trace => Forall (fun e => awaitsForever e = false) trace
  | Stalled trace =>
      exists steps p,
        trace = steps ++ [Await p] /\
        settles p = Never /\
        Forall (fun e => awaitsForever e = false) steps
  end.
Proof.
  rewrite dispatch_eq.
  destruct (currentMatchesOf (state router)) as [currentMatches|];
    [|exact I].
  cbv zeta.
  set (fromMatches := fst (diffMatches _ _)).
  set (toMatches := snd (diffMatches _ _)).
  set (query := default ∅ (extractQuery path)).
  pose proof (stallRecorded_fold _ (fromHooks_phase (reverse fromMatches))
                (newTransition path) Null [] (List.Forall_nil _)) as H1.
  destruct (fold_left _ _ _) as [[t1 c1] tr1].
  unfold stallRecorded in H1.
  destruct (waiting c1); [exact H1|].
  assert (Hd : forall c, Forall (fun e => awaitsForever e = false)
                           (deferral c))
    by (intros []; repeat constructor).
  destruct (failed (errorOf c1) t1).
  { rewrite !Forall_app. repeat split; auto; repeat constructor. }
  pose proof (stallRecorded_fold _ (toHooks_phase query toMatches)
                t1 Null [] (List.Forall_nil _)) as H2.
  destruct (fold_left _ _ _) as [[t2 c2] tr2].
  unfold stallRecorded in H2.
  destruct (waiting c2).
  { destruct H2 as (steps & p & -> & Hp & Hsteps).
    exists (tr1 ++ deferral c1 ++ steps), p.
    split; [rewrite <- !app_assoc; reflexivity|]. split; [exact Hp|].
    rewrite !Forall_app. repeat split; auto. }
  destruct (failed (errorOf c2) t2);
    rewrite !Forall_app; repeat split; auto; repeat constructor.
Qed.


(** ** A dispatch without waits *)






(** ** The callback and the order of the handler calls *)

Lemma completion_not_callback (e : Event) (c : Completion) :
  completionOf e = Some c -> isCallback e = false.
Proof. destruct e; simpl; congruence. Qed.

Lemma turn_not_callback (l : list Event) :
  Forall (fun e => isTurn e = true) l ->
  Forall (fun e => isCallback e = false) l.
Proof.
  intros H. eapply Forall_impl; [exact H|]. intros [] He; simpl in *;
    congruence.
Qed.

Lemma fold_no_callback (hooks : list Hook) :
  Forall phaseHook hooks ->
  forall t chain trace,
    Forall (fun e => isCallback e = false) trace ->
    let '(_, _, trace') := fold_left reduceStep hooks (t, chain, trace) in
    Forall (fun e => isCallback e = false) trace'.
Proof.
  induction 1 as [|h hooks Hh _ IH]; intros t chain trace Htrace;
    cbn [fold_left]; [exact Htrace|].
  destruct (reduceStep_cases t chain trace h)
    as [->|(t0' & c' & turn & Hturn & ->)]; [apply IH, Htrace|].
  apply IH. rewrite !Forall_app. split; [exact Htrace|].
  split; [|apply turn_not_callback, Hturn].
  destruct (phaseHook_cases h t Hh) as [->|(_ & call & c & -> & Hc & _)].
  - constructor.
  - repeat constructor. eapply completion_not_callback, Hc.
Qed.

Lemma deferral_no_callback (chain : Chain) :
  Forall (fun e => isCallback e = false) (deferral chain).
Proof. destruct chain; repeat constructor. Qed.

(** The steps of a dispatch end with the callback, the only one. *)
Lemma dispatch_trace_shape (router router' : Router) (path : string)
    (t : Transition) (trace : list Event) :
  dispatch router path = Ran router' t trace ->
  exists steps error reason,
    trace = steps ++ [Callback error reason] /\
    Forall (fun e => isCallback e = false) steps.
Proof.
  rewrite dispatch_eq.
  destruct (currentMatchesOf (state router)) as [currentMatches|];
    [|discriminate].
  cbv zeta.
  set (fromMatches := fst (diffMatches _ _)).
  set (toMatches := snd (diffMatches _ _)).
  set (query := default ∅ (extractQuery path)).
  pose proof (fold_no_callback _ (fromHooks_phase (reverse fromMatches))
                (newTransition path) Null [] (List.Forall_nil _)) as H1.
  destruct (fold_left _ _ _) as [[t1 c1] tr1].
  pose proof (deferral_no_callback c1) as Hd1.
  destruct (waiting c1) eqn:Hw1; [discriminate|].
  destruct (failed (errorOf c1) t1).
  { intros [= <- <- <-].
    eexists (tr1 ++ deferral c1), _, _. rewrite <- app_assoc.
    split; [reflexivity|]. apply Forall_app. auto. }
  pose proof (fold_no_callback _ (toHooks_phase query toMatches)
                t1 Null [] (List.Forall_nil _)) as H2.
  destruct (fold_left _ _ _) as [[t2 c2] tr2].
  pose proof (deferral_no_callback c2) as Hd2.
  destruct (waiting c2) eqn:Hw2; [discriminate|].
  destruct (failed (errorOf c2) t2); intros [= <- <- <-];
    eexists (tr1 ++ deferral c1 ++ tr2 ++ deferral c2), _, _;
    (split; [apply app_snoc4|]); rewrite !Forall_app; auto.
Qed.

(** A dispatch changes at most the pending slot of the router. *)
Lemma dispatch_frame (router router' : Router) (path : string)
    (t : Transition) (trace : list Event) :
  dispatch router path = Ran router' t trace ->
  state router' = state router /\
  routes router' = routes router /\
  defaultRoute router' = defaultRoute router /\
  notFoundRoute router' = notFoundRoute router.
Proof.
  rewrite dispatch_eq.
  destruct (currentMatchesOf (state router)) as [currentMatches|];
    [|discriminate].
  cbv zeta.
  destruct (fold_left _ _ _) as [[t1 c1] tr1].
  destruct (waiting c1) eqn:Hw1; [discriminate|].
  destruct (failed (errorOf c1) t1); [intros [= <- <- <-]; auto|].
  destruct (fold_left _ _ _) as [[t2 c2] tr2].
  destruct (waiting c2) eqn:Hw2; [discriminate|].
  destruct (failed (errorOf c2) t2); intros [= <- <- <-]; auto.
Qed.

(** A dispatch that waits for ever has not called back. *)
Lemma dispatch_stalled_no_callback (router : Router) (path : string)
    (trace : list Event) :
  dispatch router path = Stalled trace ->
  Forall (fun e => isCallback e = false) trace.
Proof.
  rewrite dispatch_eq.
  destruct (currentMatchesOf (state router)) as [currentMatches|];
    [|discriminate].
  cbv zeta.
  set (fromMatches := fst (diffMatches _ _)).
  set (toMatches := snd (diffMatches _ _)).
  set (query := default ∅ (extractQuery path)).
  pose proof (fold_no_callback _ (fromHooks_phase (reverse fromMatches))
                (newTransition path) Null [] (List.Forall_nil _)) as H1.
  destruct (fold_left _ _ _) as [[t1 c1] tr1].
  pose proof (deferral_no_callback c1) as Hd1.
  destruct (waiting c1); [intros [= <-]; exact H1|].
  destruct (failed (errorOf c1) t1); [discriminate|].
  pose proof (fold_no_callback _ (toHooks_phase query toMatches)
                t1 Null [] (List.Forall_nil _)) as H2.
  destruct (fold_left _ _ _) as [[t2 c2] tr2].
  destruct (waiting c2).
  - intros [= <-]. rewrite !Forall_app. auto.
  - destruct (failed (errorOf c2) t2); discriminate.
Qed.

(** [dispatch] itself throws only when [this.state] is [undefined]. *)
Lemma dispatch_throws (router : Router) (path : string) :
  dispatch router path = TypeError -> state router = UndefinedState.
Proof.
  rewrite dispatch_eq.
  destruct (state router); [|  |reflexivity]; cbn [currentMatchesOf];
    cbv zeta;
    destruct (fold_left _ _ _) as [[t1 c1] tr1];
    (destruct (waiting c1); [discriminate|]);
    (destruct (failed (errorOf c1) t1); [discriminate|]);
    destruct (fold_left _ _ _) as [[t2 c2] tr2];
    (destruct (waiting c2); [discriminate|]);
    destruct (failed (errorOf c2) t2); discriminate.
Qed.

(** X2: a dispatch, whose hooks return nothing or a promise, calls its
    callback at most once.  When every promise its hook chain waits for
    settles, it calls it exactly once, as its last step, and leaves the
    routes and the committed state of the router as they were.  When the
    chain comes to wait for a promise that never settles, that wait is
    the last step and the callback is never called.  The only other
    outcome is the [TypeError] of a router whose state is [undefined]. *)
Theorem dispatch_calls_back_once (router : Router) (path : string)
    (result : DispatchResult) :
  dispatch router path = result ->
  match result with
  | TypeError => state router = UndefinedState
  | Ran router' t trace =>
      (exists steps error reason,
         trace = steps ++ [Callback error reason] /\
         Forall (fun e => isCallback e = false) steps) /\
      Forall (fun e => awaitsForever e = false) trace /\
      state router' = state router /\
      routes router' = routes router /\
      defaultRoute router' = defaultRoute router /\
      notFoundRoute router' = notFoundRoute router
  | Stalled trace =>
      (exists steps p,
         trace = steps ++ [Await p] /\
         settles p = Never /\
         Forall (fun e => awaitsForever e = false) steps) /\
      Forall (fun e => isCallback e = false) trace
  end.
Proof.
  intros Hrun. pose proof (dispatch_stallRecorded router path) as Hstall.
  rewrite Hrun in Hstall.
  destruct result as [|router' t trace|trace].
  - exact (dispatch_throws _ _ Hrun).
  - split; [eapply dispatch_trace_shape, Hrun|].
    split; [exact Hstall|]. eapply dispatch_frame, Hrun.
  - split; [exact Hstall|]. eapply dispatch_stalled_no_callback, Hrun.
Qed.

Lemma callbackInline_steps (steps : list Event) (cb : Event) :
  isCallback cb = true ->
  Forall (fun e => isCallback e = false) steps ->
  callbackInline (steps ++ [cb]) = true <->
  Forall (fun e => isTurn e = false) steps.
Proof.
  intros Hcb. induction 1 as [|e steps He _ IH]; simpl.
  - rewrite Hcb. split; [constructor|reflexivity].
  - rewrite He. destruct (isTurn e) eqn:Hturn.
    + split; [discriminate|]. intros Hall. inversion Hall; congruence.
    + rewrite IH. split.
      * intros Hall. constructor; assumption.
      * intros Hall. inversion Hall; assumption.
Qed.

(** X6: the dispatch callback runs inline, before [dispatch] returns,
    exactly when no step of the dispatch yields to the event loop; as soon
    as the chain waits for a promise, the callback runs on a later turn. *)
Theorem callback_inline_iff (router router' : Router) (path : string)
    (t : Transition) (trace : list Event) :
  dispatch router path = Ran router' t trace ->
  (callbackInline trace = true <->
   Forall (fun e => isTurn e = false) trace) /\
  (forall p, In (Await p) trace -> callbackInline trace = false).
Proof.
  intros Hrun.
  destruct (dispatch_trace_shape _ _ _ _ _ Hrun)
    as (steps & error & reason & -> & Hsteps).
  assert (Hiff : callbackInline (steps ++ [Callback error reason]) = true <->
                 Forall (fun e => isTurn e = false)
                        (steps ++ [Callback error reason])).
  { rewrite (callbackInline_steps steps (Callback error reason) eq_refl
               Hsteps), Forall_app.
    split; [|tauto]. intros Hall. split; [exact Hall|repeat constructor]. }
  split; [exact Hiff|].
  intros p Hin. apply not_true_is_false. intros Hinline.
  apply Hiff in Hinline. rewrite Forall_forall in Hinline.
  specialize (Hinline (Await p) (proj2 (list_elem_of_In _ _) Hin)).
  discriminate.
Qed.





(** ** The shape of a chain *)

(** Induction over a route tree. *)
Lemma Route_tree_ind (P : Route -> Prop) :
  (forall route, Forall P (route_childRoutes route) -> P route) ->
  forall route, P route.
Proof.
  intros H. fix IH 1. intros route. apply H.
  destruct route as [ref path names children d nf h]. simpl.
  revert children. fix IHchildren 1. intros [|child children].
  - constructor.
  - constructor; [apply IH|apply IHchildren].
Qed.

Lemma matchAlone_Some (path : string) (r : option Route)
    (matches : list Match) :
  matchAlone path r = Some matches ->
  exists route params,
    r = Some route /\
    extractParams (route_path route) path = Some params /\
    matches = [newMatch route params].
Proof.
  unfold matchAlone. destruct r as [route|]; [|discriminate].
  destruct (extractParams _ _) as [params|] eqn:Hp; [|discriminate].
  intros [= <-]. eauto.
Qed.

Lemma chainFor_single (path : string) (route : Route) (params : Params) :
  extractParams (route_path route) path = Some params ->
  chainFor path [newMatch route params].
Proof.
  intros Hp. exists [], (newMatch route params).
  repeat split; [exact Hp|constructor].
Qed.

Lemma findMatches_level (path : string) (routes : list Route)
    (d nf : option Route) (matches : list Match) :
  Forall (fun route =>
            forall ms, visit path route = Some ms ->
                       chainFor path ms /\
                       exists params rest, ms = newMatch route params :: rest)
         routes ->
  findMatches path routes d nf = Some matches ->
  chainFor path matches /\ startsIn matches routes d nf.
Proof.
  induction 1 as [|route routes Hroute _ IH].
  - rewrite findMatches_nil. unfold fallback.
    destruct (matchAlone path d) as [ms|] eqn:Hd.
    + intros [= <-].
      apply matchAlone_Some in Hd as (r & params & -> & Hp & ->).
      split; [apply chainFor_single, Hp|].
      eexists _, _. split; [reflexivity|]. right. left. reflexivity.
    + intros Hnf.
      apply matchAlone_Some in Hnf as (r & params & -> & Hp & ->).
      split; [apply chainFor_single, Hp|].
      eexists _, _. split; [reflexivity|]. right. right. reflexivity.
  - rewrite findMatches_cons. destruct (visit path route) as [ms|] eqn:Hv.
    + intros [= <-]. destruct (Hroute ms eq_refl) as (Hc & params & rest & ->).
      split; [exact Hc|].
      eexists _, _. split; [reflexivity|]. left. left. reflexivity.
    + intros Hrest. destruct (IH Hrest) as (Hc & m & rest & -> & Hin).
      split; [exact Hc|].
      eexists _, _. split; [reflexivity|].
      destruct Hin as [Hin|[Hin|Hin]]; auto. left. right. exact Hin.
Qed.

Lemma visit_chain (path : string) (route : Route) (matches : list Match) :
  visit path route = Some matches ->
  chainFor path matches /\
  exists params rest, matches = newMatch route params :: rest.
Proof.
  revert matches. induction route as [route IH] using Route_tree_ind.
  intros matches. rewrite visit_unfold.
  destruct (findMatches _ _ _ _) as [sub|] eqn:Hsub.
  - destruct (findMatches_level _ _ _ _ _ IH Hsub)
      as ((ancestors & deepest & -> & Hp & Hanc & Hnested)
          & m & rest & Hm & Hin).
    cbv zeta. unfold getRootMatch. rewrite last_snoc.
    intros [= <-]. split; [|eauto].
    exists (newMatch route
              (reduceParamNames (route_paramNames route)
                                (match_params deepest)) :: ancestors),
           deepest.
    split; [reflexivity|]. split; [exact Hp|].
    split; [constructor; [reflexivity|exact Hanc]|].
    rewrite Hm in *. simpl. split; [|exact Hnested].
    unfold reachedFrom. simpl. tauto.
  - destruct (extractParams _ _) as [params|] eqn:Hp; [|discriminate].
    intros [= <-]. split; [apply chainFor_single, Hp|eauto].
Qed.

(** X3: a chain that [findMatches] returns leads, match by match, from a route
    of the level searched (or its default or not-found route) down to the
    route whose own pattern matched the path; that last match holds the
    params extracted from the path, and every match above it holds its
    route's declared parameter names, read from those params. *)
Theorem findMatches_chain (path : string) (routes : list Route)
    (d nf : option Route) (matches : list Match) :
  findMatches path routes d nf = Some matches ->
  chainFor path matches /\ startsIn matches routes d nf.
Proof.
  apply findMatches_level, Forall_forall. intros route _ ms.
  apply visit_chain.
Qed.

(** ** Errors *)

(** A hook function that throws made a call that raised the error; one
    that returns raised none. *)
Lemma phaseHook_raises (h : Hook) (t : Transition) :
  phaseHook h ->
  match snd (h t) with
  | Throw _ e => exists call, fst (h t) = [call] /\ raises call = Some e
  | Normal _ _ => Forall (fun s => raises s = None) (fst (h t))
  end.
Proof.
  intros [[m ->]|[query [m ->]]].
  - unfold fromHook. cbv zeta.
    destruct (negb (isAborted t)),
      (willTransitionFrom (route_handler (match_route m))) as [hook|];
      simpl; try constructor.
    destruct (hook t (match_element m)) as [t' ret|t' e] eqn:Hc.
    + repeat constructor.
    + eauto.
  - unfold toHook. cbv zeta.
    destruct (negb (isAborted t)),
      (willTransitionTo (route_handler (match_route m))) as [hook|];
      simpl; try constructor.
    destruct (hook t (match_params m) query) as [t' ret|t' e] eqn:Hc; simpl.
    + repeat constructor.
    + eauto.
Qed.

Lemma errorRecorded_step (t : Transition) (chain : Chain)
    (trace : list Event) (h : Hook) :
  phaseHook h ->
  errorRecorded chain trace ->
  let '(_, chain', trace') := reduceStep (t, chain, trace) h in
  errorRecorded chain' trace'.
Proof.
  intros Hh Hinv. pose proof (phaseHook_raises h t Hh) as Hr.
  assert (Hsettle : forall p before,
            Forall (fun s => raises s = None) before ->
            errorRecorded (settle p) (before ++ [Await p])).
  { intros p before Hbefore. unfold errorRecorded, settle.
    destruct (settles p) as [|e|] eqn:Hp; simpl.
    - apply Forall_app. split; [exact Hbefore|].
      repeat constructor. simpl. rewrite Hp. reflexivity.
    - exists before, (Await p). repeat split; auto. simpl. rewrite Hp.
      reflexivity.
    - apply Forall_app. split; [exact Hbefore|].
      repeat constructor. simpl. rewrite Hp. reflexivity. }
  assert (Hthrow : forall call e,
            raises call = Some e -> fst (h t) = [call] ->
            isTurn call = false).
  { intros call e Hcall Hcalls.
    destruct (phaseHook_cases h t Hh) as [Hskip|(_ & call' & c & Hc & Hcc & _)].
    - rewrite Hskip in Hcalls. discriminate.
    - rewrite Hc in Hcalls. injection Hcalls as <-.
      destruct call'; simpl in *; congruence. }
  unfold reduceStep.
  destruct chain; try exact Hinv; unfold errorRecorded in Hinv;
    simpl in Hinv;
    destruct (h t) as [calls [t' [p|]|t' e]] eqn:Hht; simpl in Hr.
  - rewrite app_assoc. apply Hsettle, Forall_app. auto.
  - unfold errorRecorded. simpl. apply Forall_app. auto.
  - destruct Hr as (call & -> & Hcall). unfold errorRecorded. simpl.
    exists trace, call. repeat split; auto.
    intros Hturn. rewrite (Hthrow call e Hcall eq_refl) in Hturn.
    discriminate.
  - rewrite app_assoc. apply Hsettle, Forall_app. auto.
  - unfold errorRecorded. simpl. rewrite !Forall_app.
    repeat split; auto; repeat constructor.
  - destruct Hr as (call & -> & Hcall). unfold errorRecorded. simpl.
    exists trace, call. repeat split; auto.
Qed.

Lemma errorRecorded_fold (hooks : list Hook) :
  Forall phaseHook hooks ->
  forall t chain trace,
    errorRecorded chain trace ->
    let '(_, chain', trace') := fold_left reduceStep hooks (t, chain, trace) in
    errorRecorded chain' trace'.
Proof.
  induction 1 as [|h hooks Hh _ IH]; intros t chain trace Hinv;
    cbn [fold_left]; [exact Hinv|].
  pose proof (errorRecorded_step t chain trace h Hh Hinv) as Hstep.
  destruct (reduceStep (t, chain, trace) h) as [[t1 c1] tr1].
  apply IH, Hstep.
Qed.

Lemma no_raise_absurd (trace : list Event) (s : Event) (e : Error) :
  Forall (fun x => raises x = None) trace ->
  In s trace -> raises s = Some e -> False.
Proof.
  rewrite Forall_forall. intros Hall Hin Hs.
  rewrite (Hall s (proj2 (list_elem_of_In _ _) Hin)) in Hs. discriminate.
Qed.

Lemma deferral_no_raise (chain : Chain) :
  Forall (fun x => raises x = None) (deferral chain).
Proof. destruct chain; repeat constructor. Qed.



End Properties.

(** * Further properties *)

Section Coverage.

Context {paths : Path}.

(** ** The matcher: which route decides *)

Lemma decidedBy_app (path : string) (tried tried' : list Route)
    (found found' : option (list Match)) :
  decidedBy path tried found ->
  decidedBy path tried' found' ->
  decidedBy path (tried ++ tried')
    match found with Some matches => Some matches | None => found' end.
Proof.
  intros H1 H2. destruct found as [matches|].
  - destruct H1 as (before & r & after & deepest & -> & Hrest).
    exists before, r, (after ++ tried'), deepest.
    split; [|exact Hrest]. rewrite <- app_assoc. reflexivity.
  - destruct found' as [matches|].
    + destruct H2 as (before & r & after & deepest & -> & Hb & Hrest).
      exists (tried ++ before), r, after, deepest.
      split; [rewrite <- app_assoc; reflexivity|].
      split; [|exact Hrest]. apply Forall_app. split; assumption.
    + apply Forall_app. split; assumption.
Qed.

Lemma decidedBy_matchAlone (path : string) (r : option Route) :
  decidedBy path (option_list r) (matchAlone path r).
Proof.
  destruct r as [route|]; simpl; [|constructor].
  destruct (extractParams (route_path route) path) as [params|] eqn:He; simpl.
  - exists [], route, [], (newMatch route params).
    repeat split; [constructor|exact He].
  - repeat constructor. exact He.
Qed.

Lemma decidedBy_fallback (path : string) (d nf : option Route) :
  decidedBy path (option_list d ++ option_list nf) (fallback path d nf).
Proof.
  unfold fallback.
  apply decidedBy_app; apply decidedBy_matchAlone.
Qed.

Lemma decidedBy_level (path : string) (routes : list Route)
    (d nf : option Route) :
  Forall (fun route => decidedBy path (triedIn route) (visit path route))
         routes ->
  decidedBy path (triedRoutes routes d nf) (findMatches path routes d nf).
Proof.
  unfold triedRoutes. induction 1 as [|route rest Hroute _ IH].
  - apply decidedBy_fallback.
  - rewrite findMatches_cons. cbn [flat_map]. rewrite <- app_assoc.
    apply decidedBy_app; assumption.
Qed.

Lemma decidedBy_visit (path : string) (route : Route) :
  decidedBy path (triedIn route) (visit path route).
Proof.
  induction route as [route IH] using Route_tree_ind.
  pose proof (decidedBy_level path _ (route_defaultRoute route)
                (route_notFoundRoute route) IH) as Hsub.
  rewrite visit_unfold.
  assert (Htried : triedIn route
                   = triedRoutes (route_childRoutes route)
                       (route_defaultRoute route) (route_notFoundRoute route)
                     ++ [route]).
  { destruct route. unfold triedRoutes. simpl.
    rewrite <- !app_assoc. reflexivity. }
  rewrite Htried.
  destruct (findMatches _ _ _ _) as [sub|].
  - cbv zeta.
    destruct Hsub as (before & r & after & deepest & -> & Hb & Hlast & Hrest).
    exists before, r, (after ++ [route]), deepest.
    split; [rewrite <- app_assoc; reflexivity|].
    split; [exact Hb|]. split; [|exact Hrest].
    rewrite last_cons, Hlast. reflexivity.
  - destruct (extractParams (route_path route) path) as [params|] eqn:He.
    + exists (triedRoutes (route_childRoutes route)
                (route_defaultRoute route) (route_notFoundRoute route)),
        route, [], (newMatch route params).
      repeat split; [exact Hsub|exact He].
    + apply Forall_app. split; [exact Hsub|]. repeat constructor. exact He.
Qed.

(** X7: [findMatches] gives [null] exactly when none of the patterns it can
    test matches the path, and otherwise the chain of the first route whose
    pattern matches, in the order of the tests: depth first, the routes
    under a route before the route itself, and the default and the
    not-found route of a level after its routes.  The chain ends with that
    route and the params its pattern extracts. *)
Theorem findMatches_first_pattern (path : string) (routes : list Route)
    (d nf : option Route) :
  match findMatches path routes d nf with
  | None =>
      Forall (fun r => extractParams (route_path r) path = None)
             (triedRoutes routes d nf)
  | Some matches =>
      exists before r after deepest,
        triedRoutes routes d nf = before ++ r :: after /\
        Forall (fun r' => extractParams (route_path r') path = None) before /\
        last matches = Some deepest /\
        match_route deepest = r /\
        extractParams (route_path r) path = Some (match_params deepest)
  end.
Proof.
  apply decidedBy_level, Forall_forall. intros route _.
  apply decidedBy_visit.
Qed.

(** ** The params of the matches above the deepest one *)

Lemma setProperty_lookup (o : Params) (k : string) (v : value)
    (name : string) :
  setProperty o k v !! name
  = if decide (name = k /\ name <> "__proto__") then Some v else o !! name.
Proof.
  unfold setProperty. destruct (decide (k = "__proto__")) as [->|Hk].
  - rewrite bool_decide_eq_true_2 by reflexivity.
    rewrite decide_False; [reflexivity|]. intros [-> H]. exact (H eq_refl).
  - rewrite bool_decide_eq_false_2 by exact Hk.
    destruct (decide (name = k)) as [->|Hne].
    + rewrite decide_True by (split; [reflexivity|exact Hk]).
      apply lookup_insert_eq.
    + rewrite decide_False by (intros [? _]; contradiction).
      apply lookup_insert_ne. congruence.
Qed.

Lemma reduceParamNames_fold (paramNames : list string)
    (rootParams params : Params) (name : string) :
  fold_left (fun params paramName =>
               setProperty params paramName (get rootParams paramName))
            paramNames params !! name
  = if decide (name ∈ paramNames /\ name <> "__proto__")
    then Some (get rootParams name)
    else params !! name.
Proof.
  revert params. induction paramNames as [|n rest IH]; intros params.
  - cbn [fold_left]. rewrite decide_False; [reflexivity|].
    intros [H _]. inversion H.
  - cbn [fold_left]. rewrite IH, setProperty_lookup.
    destruct (decide (name ∈ rest /\ name <> "__proto__")) as [[Hin Hp]|Hout].
    + rewrite decide_True; [reflexivity|].
      split; [apply elem_of_cons; auto|exact Hp].
    + destruct (decide (name = n /\ name <> "__proto__")) as [[-> Hp]|Hne].
      * rewrite decide_True; [reflexivity|].
        split; [apply elem_of_cons; auto|exact Hp].
      * rewrite decide_False; [reflexivity|].
        intros [Hin Hp]. apply elem_of_cons in Hin as [->|Hin].
        -- apply Hne. split; [reflexivity|exact Hp].
        -- apply Hout. split; assumption.
Qed.

Lemma reduceParamNames_lookup (paramNames : list string)
    (rootParams : Params) (name : string) :
  reduceParamNames paramNames rootParams !! name
  = if decide (name ∈ paramNames /\ name <> "__proto__")
    then Some (get rootParams name)
    else None.
Proof.
  unfold reduceParamNames. rewrite reduceParamNames_fold.
  destruct (decide _); [reflexivity|apply lookup_empty].
Qed.

(** X8: in a chain that [findMatches] returns, the params object of every
    match above the deepest one has exactly the declared [paramNames] of
    its route as own properties (but never [__proto__], which assignment
    does not create), each with the value that reading the name from the
    deepest match's params gives: the deepest match's own value, else the
    member of [Object.prototype] of that name (for a name such as
    [constructor]), else [undefined].  A name the route does not declare is
    absent even if the deepest match has it. *)
Theorem findMatches_ancestor_params (path : string) (routes : list Route)
    (d nf : option Route) (matches : list Match) :
  findMatches path routes d nf = Some matches ->
  exists ancestors deepest,
    matches = ancestors ++ [deepest] /\
    Forall (fun m =>
              forall name,
                match_params m !! name
                = if decide (name ∈ route_paramNames (match_route m)
                             /\ name <> "__proto__")
                  then Some (get (match_params deepest) name)
                  else None)
           ancestors.
Proof.
  intros Hfound.
  assert (Hchain : chainFor path matches).
  { eapply (findMatches_level path routes d nf); [|exact Hfound].
    apply Forall_forall. intros route _ ms. apply visit_chain. }
  destruct Hchain as (ancestors & deepest & -> & _ & Hparams & _).
  exists ancestors, deepest. split; [reflexivity|].
  eapply Forall_impl; [exact Hparams|].
  intros m -> name. apply reduceParamNames_lookup.
Qed.

(** ** Dispatches that call no hook *)

Lemma hasMatch_nil (match_ : Match) : hasMatch [] match_ = false.
Proof. reflexivity. Qed.

Lemma diffMatches_filter (currentMatches nextMatches : list Match) :
  diffMatches currentMatches nextMatches =
  (List.filter (fun match_ => negb (hasMatch nextMatches match_))
               currentMatches,
   List.filter (fun match_ => negb (hasMatch currentMatches match_))
               nextMatches).
Proof.
  destruct currentMatches as [|m rest]; [|reflexivity].
  unfold diffMatches. cbn [List.filter].
  rewrite (filter_keeps_all _ nextMatches); [reflexivity|].
  intros x _. reflexivity.
Qed.

Lemma diffMatches_none (currentMatches : list Match) :
  diffMatches currentMatches [] = (currentMatches, []).
Proof.
  rewrite diffMatches_filter. rewrite filter_keeps_all; [reflexivity|].
  intros x _. reflexivity.
Qed.

Lemma diffMatches_same (currentMatches nextMatches : list Match) :
  Forall2 equalMatch currentMatches nextMatches ->
  diffMatches currentMatches nextMatches = ([], []).
Proof.
  intros Hsame. rewrite diffMatches_filter.
  rewrite !filter_drops_all; [reflexivity| |].
  - intros x Hx. apply negb_false_iff.
    rewrite <- (app_nil_r currentMatches).
    apply (hasMatch_shared nextMatches); [|exact Hx].
    apply Forall2_equalMatch_sym, Hsame.
  - intros x Hx. apply negb_false_iff.
    rewrite <- (app_nil_r nextMatches).
    apply (hasMatch_shared currentMatches); assumption.
Qed.

Lemma deletePromise_none (t : Transition) :
  promise t = None -> deletePromise t = t.
Proof. destruct t. simpl. intros ->. reflexivity. Qed.

Lemma fromHooks_skipped (matches : list Match) (t : Transition)
    (trace : list Event) :
  promise t = None ->
  Forall (fun m => willTransitionFrom (route_handler (match_route m)) = None)
         matches ->
  fold_left reduceStep (map fromHook matches) (t, Null, trace)
  = (t, Null, trace).
Proof.
  intros Hp. induction 1 as [|m rest Hm _ IH]; [reflexivity|].
  cbn [map fold_left]. unfold reduceStep at 2, fromHook. cbv zeta.
  rewrite Hm.
  replace (match negb (isAborted t) with
           | true | _ => ([], consumePromise t)
           end) with (@nil Event, consumePromise t)
    by (destruct (negb (isAborted t)); reflexivity).
  unfold consumePromise. rewrite Hp, (deletePromise_none t Hp), app_nil_r.
  exact IH.
Qed.

Lemma toHooks_skipped (query : Params) (matches : list Match)
    (t : Transition) (trace : list Event) :
  promise t = None ->
  Forall (fun m => willTransitionTo (route_handler (match_route m)) = None)
         matches ->
  fold_left reduceStep (map (toHook query) matches) (t, Null, trace)
  = (t, Null, trace).
Proof.
  intros Hp. induction 1 as [|m rest Hm _ IH]; [reflexivity|].
  cbn [map fold_left]. unfold reduceStep at 2, toHook. cbv zeta.
  rewrite Hm.
  replace (match negb (isAborted t) with
           | true | _ => ([], consumePromise t)
           end) with (@nil Event, consumePromise t)
    by (destruct (negb (isAborted t)); reflexivity).
  unfold consumePromise. rewrite Hp, (deletePromise_none t Hp), app_nil_r.
  exact IH.
Qed.

(** X9: when no handler of a leaving match defines [willTransitionFrom]
    and no handler of an entering match defines [willTransitionTo], the
    dispatch calls no handler, waits for nothing, calls its callback inline
    with no error and no abort reason, leaves the transition as it was
    created, and stores the pending state: a missing hook is passed over,
    it is not an error. *)
Theorem dispatch_without_hooks (router : Router) (path : string)
    (currentMatches : list Match) :
  let nextMatches := default [] (Router_match router path) in
  let leaving := fst (diffMatches currentMatches nextMatches) in
  let entering := snd (diffMatches currentMatches nextMatches) in
  currentMatchesOf (state router) = Some currentMatches ->
  Forall (fun m => willTransitionFrom (route_handler (match_route m)) = None)
         leaving ->
  Forall (fun m => willTransitionTo (route_handler (match_route m)) = None)
         entering ->
  dispatch router path =
  Ran (setNextState router
         (resolvedState path (default ∅ (extractQuery path)) currentMatches
                        leaving entering))
      (newTransition path) [Callback None None].
Proof.
  intros nextMatches leaving entering Hcur Hfrom Hto.
  rewrite dispatch_eq, Hcur. cbv zeta.
  fold nextMatches. fold leaving. fold entering.
  rewrite fromHooks_skipped;
    [|reflexivity|apply Forall_reverse; exact Hfrom].
  cbn [errorOf failed newTransition isAborted].
  rewrite toHooks_skipped; [|reflexivity|exact Hto].
  reflexivity.
Qed.

Lemma resolvedState_unchanged (path : string) (query : Params)
    (currentMatches : list Match) :
  resolvedState path query currentMatches [] [] =
  {| state_matches := currentMatches;
     state_path := path;
     state_routes := map match_route currentMatches;
     state_params := match last currentMatches with
                     | Some deepest => match_params deepest
                     | None => ∅
                     end;
     state_query := query |}.
Proof.
  unfold resolvedState. cbn [length getRootMatch].
  rewrite Nat.sub_0_r, firstn_all, app_nil_r. reflexivity.
Qed.

Lemma dispatch_no_change (router : Router) (path : string)
    (currentMatches : list Match) :
  currentMatchesOf (state router) = Some currentMatches ->
  diffMatches currentMatches (default [] (Router_match router path))
  = ([], []) ->
  dispatch router path =
  Ran (setNextState router
         (resolvedState path (default ∅ (extractQuery path)) currentMatches
                        [] []))
      (newTransition path) [Callback None None].
Proof.
  intros Hcur Hdiff. rewrite dispatch_eq, Hcur. cbv zeta.
  rewrite Hdiff. reflexivity.
Qed.

(** X10: a dispatch to a path whose chain is, match by match, equal (same
    route, same params) to the chain the router shows calls no hook at
    all, not even on routes whose handlers define hooks; it calls back
    inline and stores a pending state that keeps the current match
    objects, with their elements. *)
Theorem dispatch_same_chain (router : Router) (path : string)
    (currentMatches : list Match) :
  currentMatchesOf (state router) = Some currentMatches ->
  Forall2 equalMatch currentMatches (default [] (Router_match router path)) ->
  dispatch router path =
  Ran (setNextState router
         {| state_matches := currentMatches;
            state_path := path;
            state_routes := map match_route currentMatches;
            state_params := match last currentMatches with
                            | Some deepest => match_params deepest
                            | None => ∅
                            end;
            state_query := default ∅ (extractQuery path) |})
      (newTransition path) [Callback None None].
Proof.
  intros Hcur Hsame.
  rewrite (dispatch_no_change router path currentMatches Hcur
             (diffMatches_same _ _ Hsame)).
  rewrite resolvedState_unchanged. reflexivity.
Qed.

(** X11: when no route matches the path, [dispatch] goes on with an empty
    next chain: every match of the current chain is leaving and none is
    entering, and if no leaving hook fails or aborts the pending state has
    no matches, no routes and no params. *)
Theorem dispatch_unmatched_path (router router' : Router) (path : string)
    (t : Transition) (trace : list Event) (reason : option Reason)
    (currentMatches : list Match) :
  Router_match router path = None ->
  currentMatchesOf (state router) = Some currentMatches ->
  diffMatches currentMatches (default [] (Router_match router path))
  = (currentMatches, []) /\
  (dispatch router path = Ran router' t trace ->
   last trace = Some (Callback None reason) ->
   isAborted t = false ->
   _nextState router' =
   Some {| state_matches := [];
           state_path := path;
           state_routes := [];
           state_params := ∅;
           state_query := default ∅ (extractQuery path) |}).
Proof.
  intros Hnone Hcur. rewrite Hnone. cbn [default].
  split; [apply diffMatches_none|].
  intros Hrun Hlast Hnot.
  destruct (dispatch_success _ _ _ _ _ _ Hrun Hlast Hnot)
    as (cur & Hcur' & ->).
  rewrite Hcur in Hcur'. injection Hcur' as <-.
  rewrite Hnone. cbn [default _nextState setNextState].
  rewrite diffMatches_none. unfold resolvedState. cbn [fst snd].
  rewrite Nat.sub_diag. reflexivity.
Qed.

(** X12: the first dispatch of a router, once committed by [flipSwitch],
    leaves the router showing the chain that [match] gives for the path;
    dispatching the same path again then calls no hook, calls back inline
    and stores that same chain again. *)
Theorem redispatch_after_commit (routes : list Route) (d nf : option Route)
    (path : string) (router' : Router) (t : Transition) (trace : list Event)
    (reason : option Reason) :
  dispatch (newRouter routes d nf) path = Ran router' t trace ->
  last trace = Some (Callback None reason) ->
  isAborted t = false ->
  exists s,
    state (flipSwitch router') = Resolved s /\
    _nextState (flipSwitch router') = None /\
    state_path s = path /\
    state_matches s
    = default [] (findMatches (withoutQuery path) routes d nf) /\
    dispatch (flipSwitch router') path =
    Ran (setNextState (flipSwitch router') s) (newTransition path)
        [Callback None None].
Proof.
  intros Hrun Hlast Hnot.
  destruct (dispatch_success _ _ _ _ _ _ Hrun Hlast Hnot)
    as (cur & Hcur & ->).
  injection Hcur as <-.
  set (next := default [] (findMatches (withoutQuery path) routes d nf)).
  set (query := default ∅ (extractQuery path)).
  exists (resolvedState path query [] [] next).
  split; [reflexivity|]. split; [reflexivity|]. split; [reflexivity|].
  split; [reflexivity|].
  rewrite (dispatch_no_change _ path next); [|reflexivity|].
  - rewrite resolvedState_unchanged. reflexivity.
  - apply diffMatches_same, Forall_Forall2_diag, Forall_forall.
    intros m _. split; reflexivity.
Qed.

(** ** The pending state over several dispatches *)

Lemma dispatch_runs (router : Router) (path : string)
    (currentMatches : list Match) :
  currentMatchesOf (state router) = Some currentMatches ->
  dispatch router path <> TypeError.
Proof.
  intros Hcur. rewrite dispatch_eq, Hcur. cbv zeta.
  destruct (fold_left _ _ _) as [[t1 c1] tr1].
  destruct (waiting c1); [discriminate|].
  destruct (failed _ t1); [discriminate|].
  destruct (fold_left _ _ _) as [[t2 c2] tr2].
  destruct (waiting c2); [discriminate|].
  destruct (failed _ t2); discriminate.
Qed.

(** X13: [dispatch] does not read [_nextState]: whatever is pending, it
    takes the same steps and leaves the same transition.  A dispatch that
    fails or is aborted does not clear the pending state of an earlier
    dispatch, which stays in place; one that succeeds replaces it. *)
Theorem dispatch_ignores_pending (router router' : Router) (path : string)
    (t : Transition) (trace : list Event) (pending : State) :
  dispatch router path = Ran router' t trace ->
  ((isAborted t = true \/
    exists e reason, last trace = Some (Callback (Some e) reason)) /\
   router' = router /\
   dispatch (setNextState router pending) path
   = Ran (setNextState router pending) t trace) \/
  (isAborted t = false /\
   last trace = Some (Callback None None) /\
   dispatch (setNextState router pending) path = Ran router' t trace).
Proof.
  rewrite (dispatch_eq (setNextState router pending)), dispatch_eq.
  change (state (setNextState router pending)) with (state router).
  change (Router_match (setNextState router pending) path)
    with (Router_match router path).
  destruct (currentMatchesOf (state router)) as [currentMatches|];
    [|discriminate].
  cbv zeta.
  destruct (fold_left _ _ _) as [[t1 c1] tr1].
  destruct (waiting c1) eqn:Hw1; [discriminate|].
  destruct (failed (errorOf c1) t1) eqn:Hf1.
  { intros [= <- <- <-]. left. split; [|split; reflexivity].
    unfold failed in Hf1. destruct (errorOf c1) as [e|]; [right|left; exact Hf1].
    exists e, (abortReason t1). rewrite app_assoc. apply last_snoc. }
  destruct (fold_left _ _ _) as [[t2 c2] tr2].
  destruct (waiting c2) eqn:Hw2; [discriminate|].
  destruct (failed (errorOf c2) t2) eqn:Hf2.
  { intros [= <- <- <-]. left. split; [|split; reflexivity].
    unfold failed in Hf2. destruct (errorOf c2) as [e|]; [right|left; exact Hf2].
    exists e, (abortReason t2). rewrite !app_assoc. apply last_snoc. }
  intros [= <- <- <-]. right.
  unfold failed in Hf2. destruct (errorOf c2); [discriminate|].
  split; [exact Hf2|]. split; [|reflexivity].
  rewrite !app_assoc. apply last_snoc.
Qed.

(** X14: a [flipSwitch] with nothing pending leaves [this.state]
    undefined, and from then on [dispatch] throws a [TypeError] instead of
    running hooks and calling its callback; with a pending state it runs.
    So a commit after a first dispatch that was aborted makes every later
    dispatch throw. *)
Theorem dispatch_after_flipSwitch :
  (forall router path,
     dispatch (flipSwitch router) path = TypeError <->
     _nextState router = None) /\
  (forall router router' path t trace later,
     dispatch router path = Ran router' t trace ->
     isAborted t = true ->
     _nextState router = None ->
     dispatch (flipSwitch router') later = TypeError).
Proof.
  assert (Hiff : forall router path,
             dispatch (flipSwitch router) path = TypeError <->
             _nextState router = None).
  { intros router path. split.
    - destruct (_nextState router) as [s|] eqn:Hnext; [|reflexivity].
      intros Hthrows. exfalso.
      apply (dispatch_runs (flipSwitch router) path (state_matches s));
        [|exact Hthrows].
      unfold flipSwitch. cbn [state]. rewrite Hnext. reflexivity.
    - intros Hnext. unfold dispatch, flipSwitch. cbn [state].
      rewrite Hnext. reflexivity. }
  split; [exact Hiff|].
  intros router router' path t trace later Hrun Ha Hnext.
  destruct (dispatch_aborted _ _ _ _ _ Hrun Ha) as (-> & _).
  apply Hiff, Hnext.
Qed.

(** ** Errors halt the hooks *)


(** The account of the errors of a whole dispatch: either no step raises
    an error and the callback gets none, or one step does, it is followed
    only by the [setTimeout] of a promise chain, if any, and by the
    callback, which gets that error. *)
Lemma dispatch_error_account (router router' : Router) (path : string)
    (t : Transition) (trace : list Event) :
  dispatch router path = Ran router' t trace ->
  (Forall (fun x => raises x = None) trace /\
   exists reason, last trace = Some (Callback None reason)) \/
  (exists before step defer e,
     trace = before ++ step :: defer
                    ++ [Callback (Some e) (abortReason t)] /\
     raises step = Some e /\
     Forall (fun x => raises x = None) before /\
     (defer = [] \/ defer = [SetTimeout]) /\
     router' = router).
Proof.
  rewrite dispatch_eq.
  destruct (currentMatchesOf (state router)) as [currentMatches|];
    [|discriminate].
  cbv zeta.
  set (fromMatches := fst (diffMatches _ _)).
  set (toMatches := snd (diffMatches _ _)).
  set (query := default ∅ (extractQuery path)).
  pose proof (errorRecorded_fold _ (fromHooks_phase (reverse fromMatches))
                (newTransition path) Null [] (List.Forall_nil _)) as H1.
  destruct (fold_left _ _ _) as [[t1 c1] tr1].
  assert (Hdefer : forall c, deferral c = [] \/ deferral c = [SetTimeout])
    by (intros []; simpl; auto).
  unfold errorRecorded in H1.
  destruct (waiting c1) eqn:Hw1; [discriminate|].
  destruct (errorOf c1) as [e1|] eqn:Hc1.
  { cbn [failed]. intros [= <- <- <-]. right.
    destruct H1 as (before & step & -> & Hstep & Hbefore & _).
    exists before, step, (deferral c1), e1.
    split; [rewrite <- !app_assoc; reflexivity|]. auto. }
  assert (Hnone1 : Forall (fun x => raises x = None) (tr1 ++ deferral c1)).
  { apply Forall_app. split; [exact H1|apply deferral_no_raise]. }
  destruct (failed None t1) eqn:Hf1.
  { intros [= <- <- <-]. left. split.
    - rewrite app_assoc. apply Forall_app. split; [exact Hnone1|].
      repeat constructor.
    - exists (abortReason t1). rewrite app_assoc. apply last_snoc. }
  pose proof (errorRecorded_fold _ (toHooks_phase query toMatches)
                t1 Null [] (List.Forall_nil _)) as H2.
  destruct (fold_left _ _ _) as [[t2 c2] tr2].
  unfold errorRecorded in H2.
  destruct (waiting c2) eqn:Hw2; [discriminate|].
  destruct (errorOf c2) as [e2|] eqn:Hc2.
  { cbn [failed]. intros [= <- <- <-]. right.
    destruct H2 as (before & step & -> & Hstep & Hbefore & _).
    exists ((tr1 ++ deferral c1) ++ before), step, (deferral c2), e2.
    split; [rewrite <- !app_assoc; reflexivity|].
    split; [exact Hstep|]. split; [|auto].
    apply Forall_app. split; assumption. }
  assert (Hnone2 : Forall (fun x => raises x = None)
                     (tr1 ++ deferral c1 ++ tr2 ++ deferral c2)).
  { rewrite app_assoc. apply Forall_app. split; [exact Hnone1|].
    apply Forall_app. split; [exact H2|apply deferral_no_raise]. }
  destruct (failed None t2); intros [= <- <- <-]; left;
    rewrite app_snoc4; (split;
      [apply Forall_app; split; [exact Hnone2|repeat constructor]
      |eexists; apply last_snoc]).
Qed.


(** ** Waits are honoured at once *)

Lemma honoured_app (l l' : list Event) :
  honoured l -> honoured l' -> honoured (l ++ l').
Proof.
  intros Hl Hl'. induction l as [|e rest IH]; [exact Hl'|].
  destruct Hl as [He Hrest]. split; [|exact (IH Hrest)].
  destruct (waitOf e); [|exact I].
  destruct rest; [discriminate|exact He].
Qed.

Lemma honoured_no_call (l : list Event) :
  Forall (fun e => isCall e = false) l -> honoured l.
Proof.
  induction 1 as [|e rest He _ IH]; [exact I|].
  split; [|exact IH]. destruct e; try discriminate; exact I.
Qed.

Lemma honoured_next (before after : list Event) (call : Event)
    (p : Promise) :
  honoured (before ++ call :: after) ->
  waitOf call = Some p ->
  exists rest, after = Await p :: rest.
Proof.
  induction before as [|e before IH]; intros H Hw.
  - destruct H as [H _]. rewrite Hw in H.
    destruct after as [|x rest]; [discriminate|].
    injection H as ->. eauto.
  - destruct H as [_ H]. exact (IH H Hw).
Qed.

Lemma phaseHook_honoured (h : Hook) (t : Transition) :
  phaseHook h ->
  match snd (h t) with
  | Normal _ (Some p) => honoured (fst (h t) ++ [Await p])
  | _ => honoured (fst (h t))
  end.
Proof.
  intros [[m ->]|(query & m & ->)].
  - unfold fromHook. cbv zeta.
    destruct (negb (isAborted t));
      [destruct (willTransitionFrom (route_handler (match_route m)))
         as [hook|]|].
    + cbn [fst snd]. destruct (hook t (match_element m)) as [t' [p|]|t' e];
        repeat split.
    + cbn [fst snd consumePromise]. destruct (promise t); repeat split.
    + cbn [fst snd consumePromise]. destruct (promise t); repeat split.
  - unfold toHook. cbv zeta.
    destruct (negb (isAborted t));
      [destruct (willTransitionTo (route_handler (match_route m)))
         as [hook|]|].
    + destruct (hook t (match_params m) query) as [t' ret|t' e] eqn:Hc;
        cbn [fst snd consumePromise].
      * destruct (promise t') as [p|] eqn:Hp; simpl; rewrite Hp;
          repeat split.
      * repeat split.
    + cbn [fst snd consumePromise]. destruct (promise t); repeat split.
    + cbn [fst snd consumePromise]. destruct (promise t); repeat split.
Qed.

Lemma honoured_step (t : Transition) (chain : Chain) (trace : list Event)
    (h : Hook) :
  phaseHook h ->
  honoured trace ->
  let '(_, _, trace') := reduceStep (t, chain, trace) h in
  honoured trace'.
Proof.
  intros Hh Htrace. pose proof (phaseHook_honoured h t Hh) as Hcalls.
  unfold reduceStep.
  destruct chain; [| |exact Htrace|exact Htrace|exact Htrace];
    destruct (h t) as [calls c]; cbn [fst snd] in Hcalls;
    destruct c as [t' [p|]|t' e]; apply honoured_app; auto.
  apply honoured_app; [exact Hcalls|repeat split].
Qed.

Lemma honoured_fold (hooks : list Hook) :
  Forall phaseHook hooks ->
  forall t chain trace,
    honoured trace ->
    let '(_, _, trace') := fold_left reduceStep hooks (t, chain, trace) in
    honoured trace'.
Proof.
  induction 1 as [|h rest Hh _ IH]; intros t chain trace Htrace.
  - exact Htrace.
  - cbn [fold_left].
    pose proof (honoured_step t chain trace h Hh Htrace) as Hstep.
    destruct (reduceStep (t, chain, trace) h) as [[t' chain'] trace'].
    apply IH, Hstep.
Qed.

Lemma dispatch_honoured (router router' : Router) (path : string)
    (t : Transition) (trace : list Event) :
  dispatch router path = Ran router' t trace ->
  honoured trace.
Proof.
  rewrite dispatch_eq.
  destruct (currentMatchesOf (state router)) as [currentMatches|];
    [|discriminate].
  cbv zeta.
  set (fromMatches := fst (diffMatches _ _)).
  set (toMatches := snd (diffMatches _ _)).
  set (query := default ∅ (extractQuery path)).
  pose proof (honoured_fold _ (fromHooks_phase (reverse fromMatches))
                (newTransition path) Null [] I) as H1.
  destruct (fold_left _ _ _) as [[t1 c1] tr1].
  assert (Hd : forall c, honoured (deferral c))
    by (intros []; repeat split).
  destruct (waiting c1) eqn:Hw1; [discriminate|].
  destruct (failed (errorOf c1) t1).
  { intros [= <- <- <-]. repeat apply honoured_app; auto. repeat split. }
  pose proof (honoured_fold _ (toHooks_phase query toMatches)
                t1 Null [] I) as H2.
  destruct (fold_left _ _ _) as [[t2 c2] tr2].
  destruct (waiting c2) eqn:Hw2; [discriminate|].
  destruct (failed (errorOf c2) t2); intros [= <- <- <-];
    repeat apply honoured_app; auto; repeat split.
Qed.

(** X16: a promise that [willTransitionFrom] returns, and a promise that
    [willTransitionTo] leaves on the transition with [transition.wait],
    is waited for as the very next step of the dispatch: no handler call
    and no callback comes between the call and the wait. *)
Theorem wait_follows_call (router router' : Router) (path : string)
    (t : Transition) (before after : list Event) (call : Event)
    (p : Promise) :
  dispatch router path = Ran router' t (before ++ call :: after) ->
  waitOf call = Some p ->
  exists rest, after = Await p :: rest.
Proof.
  intros Hrun Hwait.
  exact (honoured_next _ _ _ _ (dispatch_honoured _ _ _ _ _ Hrun) Hwait).
Qed.

(** ** What the hooks are called with *)






End Coverage.

(** * The outcome of a dispatch, and [run] *)

Section Outcomes.

Context {paths : Path} {builder : PathBuilder}.

(** ** Paths built from route names *)

(** X18: [makePath] with the name of a registered route builds the path
    from that route's pattern; when the pattern is absolute and normalized
    (as the patterns of created routes are) the name and the pattern are
    interchangeable as the first argument, and a pattern given directly
    builds the same path whatever routes are registered.  The default
    abort handler, given a redirect to that name on a location object,
    calls [replace] on the location with that path. *)
Theorem makePath_by_name (namedRoutes : gmap string Route) (name : string)
    (route : Route) (params query : Params) :
  namedRoutes !! name = Some route ->
  isAbsolute name = false ->
  isAbsolute (route_path route) = true ->
  normalize (route_path route) = route_path route ->
  makePath namedRoutes name params query
  = Returns (withQuery (injectParams (route_path route) params) query) /\
  (forall others,
     makePath others (route_path route) params query
     = makePath namedRoutes name params query) /\
  (forall kind l,
     defaultAbortHandler namedRoutes (Redirect name params query)
                         (ObjectLocation kind l)
     = Returns (Replace (withQuery (injectParams (route_path route) params)
                                   query))).
Proof.
  intros Hname Hrel Habs Hnorm.
  assert (H : makePath namedRoutes name params query
              = Returns (withQuery (injectParams (route_path route) params)
                                   query)).
  { unfold makePath. rewrite Hrel, Hname. reflexivity. }
  split; [exact H|]. split.
  - intros others. rewrite H. unfold makePath. rewrite Habs, Hnorm.
    reflexivity.
  - intros kind l. unfold defaultAbortHandler. rewrite H. reflexivity.
Qed.

(** ** What [dispatchHandler] does with the outcome of a dispatch *)

Lemma dispatch_outcome (router router' : Router) (path : string)
    (t : Transition) (trace : list Event) :
  dispatch router path = Ran router' t trace ->
  (isAborted t = true /\ router' = router /\
   exists error, last trace = Some (Callback error (abortReason t))) \/
  (isAborted t = false /\ router' = router /\
   exists e, last trace = Some (Callback (Some e) (abortReason t))) \/
  (isAborted t = false /\
   last trace = Some (Callback None None) /\
   exists currentMatches,
     currentMatchesOf (state router) = Some currentMatches /\
     let nextMatches := default [] (Router_match router path) in
     router' =
     setNextState router
       (resolvedState path (default ∅ (extractQuery path)) currentMatches
          (fst (diffMatches currentMatches nextMatches))
          (snd (diffMatches currentMatches nextMatches)))).
Proof.
  intros Hrun. destruct (isAborted t) eqn:Ha.
  { left. split; [reflexivity|].
    destruct (dispatch_aborted _ _ _ _ _ Hrun Ha) as (-> & Hlast).
    split; [reflexivity|exact Hlast]. }
  right. revert Hrun. rewrite dispatch_eq.
  destruct (currentMatchesOf (state router)) as [currentMatches|];
    [|discriminate].
  cbv zeta.
  destruct (fold_left _ _ _) as [[t1 c1] tr1].
  destruct (waiting c1) eqn:Hw1; [discriminate|].
  destruct (failed (errorOf c1) t1) eqn:Hf1.
  { intros [= <- <- <-]. left. split; [reflexivity|]. split; [reflexivity|].
    unfold failed in Hf1. destruct (errorOf c1) as [e|]; [|congruence].
    exists e. rewrite app_assoc. apply last_snoc. }
  destruct (fold_left _ _ _) as [[t2 c2] tr2].
  destruct (waiting c2) eqn:Hw2; [discriminate|].
  destruct (failed (errorOf c2) t2) eqn:Hf2.
  { intros [= <- <- <-]. left. split; [reflexivity|]. split; [reflexivity|].
    unfold failed in Hf2. destruct (errorOf c2) as [e|]; [|congruence].
    exists e. rewrite !app_assoc. apply last_snoc. }
  intros [= <- <- <-]. right. split; [reflexivity|].
  split; [rewrite !app_assoc; apply last_snoc|].
  exists currentMatches. split; reflexivity.
Qed.


Lemma no_raise_no_error (router router' : Router) (path : string)
    (t : Transition) (trace : list Event) (e : Error)
    (reason : option Reason) :
  dispatch router path = Ran router' t trace ->
  Forall (fun x => raises x = None) trace ->
  last trace = Some (Callback (Some e) reason) ->
  False.
Proof.
  intros Hrun Hnone Hlast.
  destruct (dispatch_error_account _ _ _ _ _ Hrun)
    as [[_ [r Hr]]|(b0 & s0 & defer & e0 & -> & Hs0 & _)].
  - congruence.
  - apply (no_raise_absurd _ s0 e0 Hnone); [apply in_elt|exact Hs0].
Qed.


(** X21: on a static location the default abort handler cannot follow a
    redirect: whenever a hook aborts the dispatch of [run] with a truthy
    reason and no step raises an error, the handler gets the static
    location and throws "Unhandled aborted transition", for a redirect as
    for any other reason, and no pending state is stored. *)
Theorem static_run_abort_unhandled (env : Environment) (router : Router)
    (namedRoutes : gmap string Route) (path : string) (r : Running)
    (reason : Reason) :
  run env router (Some (StaticLocation path)) = Returns r ->
  isAborted (transition_after (bootstrap r)) = true ->
  abortReason (transition_after (bootstrap r)) = Some reason ->
  truthy (Some reason) = true ->
  Forall (fun x => raises x = None) (steps (bootstrap r)) ->
  listening r = false /\
  handled (bootstrap r) = Some (OnAbort reason (StaticLocation path)) /\
  defaultAbortHandler namedRoutes reason (StaticLocation path)
  = Throws (UnhandledAbort reason) /\
  router_after (bootstrap r) = router.
Proof.
  unfold run. cbn [default from_option id].
  destruct (dispatchAndHandle router (StaticLocation path) path)
    as [d|e|] eqn:Hd; [|discriminate..].
  intros [= <-]. cbn [bootstrap listening].
  intros Ha Hreason Htruthy Hnone.
  revert Hd. unfold dispatchAndHandle.
  destruct (dispatch router path) as [|router' t trace|stalled] eqn:Hrun;
    [discriminate| |discriminate].
  intros [= <-].
  cbn [transition_after router_after steps handled] in *.
  destruct (dispatch_aborted _ _ _ _ _ Hrun Ha) as (-> & error & Hlast).
  destruct error as [e|];
    [destruct (no_raise_no_error _ _ _ _ _ _ _ Hrun Hnone Hlast)|].
  split; [reflexivity|]. split; [|split; reflexivity].
  rewrite Hlast, Hreason. unfold dispatchHandler. rewrite Htruthy.
  reflexivity.
Qed.

(** ** The change listener *)

(** X22: once a dispatch to [path] has succeeded and [flipSwitch] has
    committed it, the change listener of [run] ignores a change to that
    same path (it does not dispatch, so no hook runs and the callback is
    not called), and dispatches a change to any other path; that dispatch
    does not throw, and calls [dispatchHandler] back unless it waits for a
    promise that never settles. *)
Theorem changeListener_after_commit (router router' : Router)
    (location : Location) (path : string) (t : Transition)
    (trace : list Event) (reason : option Reason) :
  dispatch router path = Ran router' t trace ->
  last trace = Some (Callback None reason) ->
  isAborted t = false ->
  changeListener (flipSwitch router') location path = Returns None /\
  forall other,
    other <> path ->
    match dispatch (flipSwitch router') other with
    | TypeError => False
    | Ran router2 t2 trace2 =>
        exists d,
          changeListener (flipSwitch router') location other
          = Returns (Some d) /\
          dispatch (flipSwitch router') other
          = Ran (router_after d) (transition_after d) (steps d)
    | Stalled _ =>
        changeListener (flipSwitch router') location other = Hangs
    end.
Proof.
  intros Hrun Hlast Hnot.
  destruct (dispatch_success _ _ _ _ _ _ Hrun Hlast Hnot)
    as (cur & Hcur & ->).
  cbv zeta. unfold changeListener.
  cbn [state flipSwitch _nextState setNextState resolvedState state_path].
  split.
  - rewrite bool_decide_eq_true_2; reflexivity.
  - intros other Hother.
    rewrite bool_decide_eq_false_2; [|congruence].
    unfold dispatchAndHandle.
    match goal with
    | |- context [dispatch ?r other] =>
        pose proof (dispatch_runs r other _ eq_refl) as Hruns;
        destruct (dispatch r other) as [|router2 t2 trace2|stalled] eqn:Hrun2
    end.
    + apply Hruns. reflexivity.
    + eexists. split; reflexivity.
    + reflexivity.
Qed.

(** ** Starting to run *)

(** X24: [run] on a static location, for a router that has not dispatched
    yet and whose matched routes have handlers without [willTransitionTo]:
    the bootstrap dispatch calls [callback] once, inline, with a state
    whose matches are the chain that [match] gives for the path ([[]] when
    no route matches), and no change listener is registered. *)
Theorem run_static_renders (env : Environment) (routes : list Route)
    (d nf : option Route) (path : string) :
  let chain := default [] (findMatches (withoutQuery path) routes d nf) in
  Forall (fun m => willTransitionTo (route_handler (match_route m)) = None)
         chain ->
  exists r s,
    run env (newRouter routes d nf) (Some (StaticLocation path)) = Returns r /\
    listening r = false /\
    steps (bootstrap r) = [Callback None None] /\
    handled (bootstrap r) = Some (CallbackWith (Some s)) /\
    state_matches s = chain /\
    state_path s = path /\
    state_params s = match last chain with
                     | Some deepest => match_params deepest
                     | None => ∅
                     end.
Proof.
  intros chain Hto. unfold run, dispatchAndHandle.
  cbn [default from_option id].
  assert (Hrun : dispatch (newRouter routes d nf) path
                 = Ran (setNextState (newRouter routes d nf)
                          (resolvedState path (default ∅ (extractQuery path))
                                         [] [] chain))
                       (newTransition path) [Callback None None]).
  { rewrite dispatch_eq.
    cbn [newRouter state currentMatchesOf diffMatches fst snd].
    cbv zeta. cbn [reverse rev_append map fold_left errorOf failed
                   newTransition isAborted].
    rewrite toHooks_skipped; [reflexivity|reflexivity|exact Hto]. }
  rewrite Hrun.
  eexists. eexists. split; [reflexivity|].
  cbn [listening bootstrap steps handled last dispatchHandler _nextState
       setNextState].
  repeat split.
Qed.

End Outcomes.

(** * Dispatches over a built route tree *)

Section Built.

Context {paths : Path}.

(** ** The lines of routes: properties *)

Lemma lineagesIn_unfold (route : Route) :
  lineagesIn route
  = map (cons route)
        (lineages (route_childRoutes route) (route_defaultRoute route)
                  (route_notFoundRoute route))
      ++ [[route]].
Proof. destruct route; reflexivity. Qed.

Lemma triedIn_unfold (route : Route) :
  triedIn route
  = triedRoutes (route_childRoutes route) (route_defaultRoute route)
                (route_notFoundRoute route)
      ++ [route].
Proof.
  destruct route. simpl. unfold triedRoutes. rewrite <- !app_assoc.
  reflexivity.
Qed.

Lemma alone_last (r : option Route) : omap last (alone r) = option_list r.
Proof. destruct r; reflexivity. Qed.

Lemma omap_last_cons (route : Route) (lines : list (list Route)) :
  Forall (fun line => line <> []) lines ->
  omap last (map (cons route) lines) = omap last lines.
Proof.
  induction 1 as [|line lines Hline _ IH]; [reflexivity|].
  destruct line as [|x line]; [contradiction|].
  cbn [map]. cbn [omap list_omap]. rewrite <- IH. reflexivity.
Qed.

(** The routes that end the lines are the routes that the search tries,
    in the order of the tests. *)
Lemma lineages_last_level (routes : list Route) (d nf : option Route) :
  Forall (fun route =>
            omap last (lineagesIn route) = triedIn route /\
            Forall (fun line => line <> []) (lineagesIn route))
         routes ->
  omap last (lineages routes d nf) = triedRoutes routes d nf /\
  Forall (fun line => line <> []) (lineages routes d nf).
Proof.
  unfold lineages, triedRoutes. intros Hroutes. split.
  - rewrite !omap_app, !alone_last. f_equal.
    induction Hroutes as [|route routes [Hroute _] _ IH]; [reflexivity|].
    cbn [flat_map]. rewrite omap_app, Hroute, IH. reflexivity.
  - rewrite !Forall_app. split; [|split].
    + induction Hroutes as [|route routes [_ Hroute] _ IH]; [constructor|].
      cbn [flat_map]. apply Forall_app. auto.
    + destruct d; repeat constructor. discriminate.
    + destruct nf; repeat constructor. discriminate.
Qed.

Lemma lineagesIn_last (route : Route) :
  omap last (lineagesIn route) = triedIn route /\
  Forall (fun line => line <> []) (lineagesIn route).
Proof.
  induction route as [route IH] using Route_tree_ind.
  rewrite lineagesIn_unfold, triedIn_unfold.
  destruct (lineages_last_level _ (route_defaultRoute route)
              (route_notFoundRoute route) IH) as [Hlast Hne].
  split.
  - rewrite omap_app, omap_last_cons by exact Hne. rewrite Hlast.
    reflexivity.
  - apply Forall_app. split; [|repeat constructor; discriminate].
    apply Forall_forall. intros line Hline.
    apply list_elem_of_In, in_map_iff in Hline as (l & <- & _). discriminate.
Qed.

Lemma lineages_last (routes : list Route) (d nf : option Route) :
  omap last (lineages routes d nf) = triedRoutes routes d nf.
Proof.
  apply lineages_last_level, Forall_forall. intros route _.
  apply lineagesIn_last.
Qed.

(** A line cut after any of its routes is a line. *)
Lemma lineages_cut_level (routes : list Route) (d nf : option Route) :
  Forall (fun route =>
            forall before r after,
              In (before ++ r :: after) (lineagesIn route) ->
              In (before ++ [r]) (lineagesIn route))
         routes ->
  forall before r after,
    In (before ++ r :: after) (lineages routes d nf) ->
    In (before ++ [r]) (lineages routes d nf).
Proof.
  intros Hroutes before r after. unfold lineages.
  rewrite !in_app_iff, !in_flat_map.
  intros [(route & Hroute & Hin)|Halone].
  - left. exists route. split; [exact Hroute|].
    rewrite Forall_forall in Hroutes.
    eapply (Hroutes route); [apply list_elem_of_In, Hroute|exact Hin].
  - right.
    assert (Hone : forall o : option Route,
               In (before ++ r :: after) (alone o) ->
               In (before ++ [r]) (alone o)).
    { intros [x|]; [|contradiction]. intros [Hx|[]]. left.
      destruct before as [|y before]; [injection Hx as -> _; reflexivity|].
      destruct before; discriminate. }
    destruct Halone as [H|H]; [left|right]; apply Hone, H.
Qed.

Lemma lineagesIn_cut (route : Route) (before : list Route) (r : Route)
    (after : list Route) :
  In (before ++ r :: after) (lineagesIn route) ->
  In (before ++ [r]) (lineagesIn route).
Proof.
  revert before r after.
  induction route as [route IH] using Route_tree_ind.
  intros before r after. rewrite lineagesIn_unfold, !in_app_iff, !in_map_iff.
  intros [(line & Hline & Hin)|[Hone|[]]].
  - destruct before as [|x before].
    + right. left. cbn [app] in *. congruence.
    + left. cbn [app] in Hline. injection Hline as -> ->.
      exists (before ++ [r]). split; [reflexivity|].
      eapply lineages_cut_level; [exact IH|exact Hin].
  - right. left. destruct before as [|x before].
    + cbn [app] in *. congruence.
    + destruct before; discriminate.
Qed.

Lemma lineages_cut (routes : list Route) (d nf : option Route)
    (before : list Route) (r : Route) (after : list Route) :
  In (before ++ r :: after) (lineages routes d nf) ->
  In (before ++ [r]) (lineages routes d nf).
Proof.
  apply lineages_cut_level, Forall_forall. intros route _ b x a.
  apply lineagesIn_cut.
Qed.

(** The routes of a chain that [findMatches] returns form a line. *)
Lemma findMatches_lineage_level (path : string) (routes : list Route)
    (d nf : option Route) (matches : list Match) :
  Forall (fun route =>
            forall ms, visit path route = Some ms ->
                       In (map match_route ms) (lineagesIn route))
         routes ->
  findMatches path routes d nf = Some matches ->
  In (map match_route matches) (lineages routes d nf).
Proof.
  unfold lineages. induction 1 as [|route routes Hroute _ IH].
  - rewrite findMatches_nil. unfold fallback. cbn [flat_map app].
    destruct (matchAlone path d) as [ms|] eqn:Hd.
    + intros [= <-].
      apply matchAlone_Some in Hd as (r & params & -> & _ & ->).
      left. reflexivity.
    + intros Hnf.
      apply matchAlone_Some in Hnf as (r & params & -> & _ & ->).
      apply in_or_app. right. left. reflexivity.
  - rewrite findMatches_cons. cbn [flat_map]. rewrite <- app_assoc.
    destruct (visit path route) as [ms|] eqn:Hv.
    + intros [= <-]. apply in_or_app. left. apply Hroute. reflexivity.
    + intros Hrest. apply in_or_app. right. apply IH, Hrest.
Qed.

Lemma visit_lineage (path : string) (route : Route) (matches : list Match) :
  visit path route = Some matches ->
  In (map match_route matches) (lineagesIn route).
Proof.
  revert matches. induction route as [route IH] using Route_tree_ind.
  intros matches. rewrite visit_unfold, lineagesIn_unfold.
  destruct (findMatches _ _ _ _) as [sub|] eqn:Hsub.
  - cbv zeta. intros [= <-]. apply in_or_app. left. cbn [map].
    apply in_map. eapply findMatches_lineage_level; [exact IH|exact Hsub].
  - destruct (extractParams _ _) as [params|]; [|discriminate].
    intros [= <-]. apply in_or_app. right. left. reflexivity.
Qed.

Lemma findMatches_lineage (path : string) (routes : list Route)
    (d nf : option Route) (matches : list Match) :
  findMatches path routes d nf = Some matches ->
  In (map match_route matches) (lineages routes d nf).
Proof.
  apply findMatches_lineage_level, Forall_forall. intros route _ ms.
  apply visit_lineage.
Qed.

Lemma findMatches_chainFor (path : string) (routes : list Route)
    (d nf : option Route) (matches : list Match) :
  findMatches path routes d nf = Some matches -> chainFor path matches.
Proof.
  intros Hfound.
  eapply (findMatches_level path routes d nf); [|exact Hfound].
  apply Forall_forall. intros route _ ms. apply visit_chain.
Qed.

(** Every route of a chain is one of the routes that the search tries. *)
Lemma chain_route_tried (path : string) (routes : list Route)
    (d nf : option Route) (before : list Match) (m : Match)
    (after : list Match) :
  findMatches path routes d nf = Some (before ++ m :: after) ->
  In (map match_route before ++ [match_route m]) (lineages routes d nf) /\
  In (match_route m) (triedRoutes routes d nf).
Proof.
  intros Hfound. apply findMatches_lineage in Hfound.
  rewrite map_app in Hfound. cbn [map] in Hfound.
  apply lineages_cut in Hfound. split; [exact Hfound|].
  rewrite <- lineages_last. apply list_elem_of_In, list_elem_of_omap.
  eexists. split; [apply list_elem_of_In, Hfound|]. apply last_snoc.
Qed.

(** ** Chains over a built tree *)

Lemma NoDup_omap_inj {A B : Type} (g : A -> option B) (l : list A)
    (x y : A) (b : B) :
  NoDup (omap g l) ->
  In x l -> In y l -> g x = Some b -> g y = Some b -> x = y.
Proof.
  intros Hnodup Hx Hy Hgx Hgy.
  assert (Hmem : forall z, In z l -> g z = Some b -> b ∈ omap g l).
  { intros z Hz Hgz. apply list_elem_of_omap. exists z.
    split; [apply list_elem_of_In, Hz|exact Hgz]. }
  induction l as [|a l IH]; [contradiction|].
  cbn [omap list_omap] in Hnodup.
  destruct Hx as [->|Hx], Hy as [->|Hy]; [reflexivity| | |].
  - rewrite Hgx in Hnodup. apply NoDup_cons in Hnodup as [Hout _].
    exfalso. apply Hout, list_elem_of_omap. exists y.
    split; [apply list_elem_of_In, Hy|exact Hgy].
  - rewrite Hgy in Hnodup. apply NoDup_cons in Hnodup as [Hout _].
    exfalso. apply Hout, list_elem_of_omap. exists x.
    split; [apply list_elem_of_In, Hx|exact Hgx].
  - apply IH; auto.
    + destruct (g a); [apply NoDup_cons in Hnodup; tauto|exact Hnodup].
    + intros z Hz Hgz. apply list_elem_of_omap. exists z.
      split; [apply list_elem_of_In, Hz|exact Hgz].
Qed.

Lemma omap_map {A B C : Type} (g : A -> option B) (f : B -> C)
    (l : list A) :
  omap (fun x => f <$> g x) l = map f (omap g l).
Proof.
  induction l as [|a l IH]; [reflexivity|].
  cbn [omap list_omap]. destruct (g a); cbn; rewrite <- IH; reflexivity.
Qed.

(** In a built tree, a line is known by the route it ends with. *)
Lemma lineage_by_end (routes : list Route) (d nf : option Route)
    (line line' : list Route) (r r' : Route) :
  wellBuilt routes d nf ->
  In line (lineages routes d nf) ->
  In line' (lineages routes d nf) ->
  last line = Some r ->
  last line' = Some r' ->
  route_ref r = route_ref r' ->
  line = line'.
Proof.
  intros Hbuilt Hline Hline' Hlast Hlast' Href.
  apply (NoDup_omap_inj (fun l => route_ref <$> last l)
           (lineages routes d nf) line line' (route_ref r)).
  - rewrite omap_map, lineages_last. apply (distinctRoutes _ _ _ Hbuilt).
  - exact Hline.
  - exact Hline'.
  - rewrite Hlast. reflexivity.
  - rewrite Hlast', Href. reflexivity.
Qed.

(** Two chains over a built tree that come to the same route came to it
    along the same routes. *)
Lemma chains_same_routes (routes : list Route) (d nf : option Route)
    (path path' : string) (before after before' after' : list Match)
    (a b : Match) :
  wellBuilt routes d nf ->
  findMatches path routes d nf = Some (before ++ a :: after) ->
  findMatches path' routes d nf = Some (before' ++ b :: after') ->
  route_ref (match_route a) = route_ref (match_route b) ->
  map match_route before = map match_route before' /\
  match_route a = match_route b.
Proof.
  intros Hbuilt Hfound Hfound' Href.
  apply chain_route_tried in Hfound as [Hline _].
  apply chain_route_tried in Hfound' as [Hline' _].
  pose proof (lineage_by_end _ _ _ _ _ _ _ Hbuilt Hline Hline'
                (last_snoc _ _) (last_snoc _ _) Href) as Heq.
  apply app_inj_tail in Heq. exact Heq.
Qed.

(** The parameter names of the routes grow along a chain. *)
Lemma nested_names (routes : list Route) (d nf : option Route)
    (before : list Match) (a : Match) (after : list Match) :
  wellBuilt routes d nf ->
  (forall m, In m before -> In (match_route m) (triedRoutes routes d nf)) ->
  nested (before ++ a :: after) ->
  Forall (fun m => route_paramNames (match_route m)
                   ⊆ route_paramNames (match_route a))
         before.
Proof.
  intros Hbuilt. induction before as [|m before IH]; intros Htried Hnested;
    [constructor|].
  assert (Hrest : Forall (fun m => route_paramNames (match_route m)
                                   ⊆ route_paramNames (match_route a))
                         before).
  { apply IH; [intros m' Hm'; apply Htried; right; exact Hm'|].
    cbn [app] in Hnested. destruct (before ++ a :: after) eqn:Hb;
      [destruct before; discriminate|]. apply Hnested. }
  constructor; [|exact Hrest].
  assert (Hstep : forall child, reachedFrom (match_route m) child ->
                    route_paramNames (match_route m)
                    ⊆ route_paramNames child).
  { intros child. apply (parentNames _ _ _ Hbuilt), Htried. left.
    reflexivity. }
  destruct before as [|m' before]; cbn [app] in Hnested.
  - apply Hstep, Hnested.
  - inversion Hrest as [|? ? Hm' _]; subst.
    etransitivity; [apply Hstep, Hnested|exact Hm'].
Qed.

(** In a chain over a built tree, every match holds exactly the declared
    parameter names of its route, each with the value that reading the
    name from the params of the deepest match gives. *)
Lemma chain_params (routes : list Route) (d nf : option Route)
    (path : string) (matches : list Match) :
  wellBuilt routes d nf ->
  findMatches path routes d nf = Some matches ->
  exists rootParams,
    Forall (fun m =>
              forall name,
                match_params m !! name
                = if decide (name ∈ route_paramNames (match_route m))
                  then Some (get rootParams name)
                  else None)
           matches.
Proof.
  intros Hbuilt Hfound.
  destruct (findMatches_chainFor _ _ _ _ _ Hfound)
    as (ancestors & deepest & -> & Hp & Hanc & _).
  exists (match_params deepest). apply Forall_app. split.
  - apply Forall_forall. intros m Hm name.
    rewrite Forall_forall in Hanc. rewrite (Hanc m Hm).
    rewrite reduceParamNames_lookup.
    apply list_elem_of_In, in_split in Hm as (l1 & l2 & ->).
    rewrite <- app_assoc in Hfound. cbn [app] in Hfound.
    apply chain_route_tried in Hfound as [_ Htried].
    pose proof (noProto _ _ _ Hbuilt _ Htried) as Hproto.
    destruct (decide (name ∈ route_paramNames (match_route m))) as [Hin|Hout].
    + rewrite decide_True; [reflexivity|]. split; [exact Hin|].
      intros ->. contradiction.
    + rewrite decide_False; [reflexivity|]. tauto.
  - constructor; [|constructor]. intros name.
    apply chain_route_tried in Hfound as [_ Htried].
    pose proof (ownParams _ _ _ Hbuilt _ _ _ Htried Hp) as Hdom.
    destruct (decide (name ∈ route_paramNames (match_route deepest)))
      as [Hin|Hout].
    + assert (Hd : name ∈ dom (match_params deepest)).
      { rewrite Hdom. apply elem_of_list_to_set, Hin. }
      apply elem_of_dom in Hd as [v Hv]. unfold get. rewrite Hv.
      reflexivity.
    + apply not_elem_of_dom. rewrite Hdom.
      rewrite elem_of_list_to_set. exact Hout.
Qed.

Lemma params_dom (params : Params) (names : list string)
    (rootParams : Params) :
  (forall name,
     params !! name
     = if decide (name ∈ names) then Some (get rootParams name) else None) ->
  dom params = list_to_set names.
Proof.
  intros H. apply set_eq. intros name.
  rewrite elem_of_dom, elem_of_list_to_set, H.
  destruct (decide (name ∈ names)) as [Hin|Hout].
  - split; [auto|eauto].
  - split; [intros [v Hv]; discriminate|contradiction].
Qed.

Lemma equalMatch_trans (a b c : Match) :
  equalMatch a b -> equalMatch b c -> equalMatch a c.
Proof. intros [Hr Hp] [Hr' Hp']. split; congruence. Qed.

Lemma Forall2_equalMatch_trans (l l' l'' : list Match) :
  Forall2 equalMatch l l' -> Forall2 equalMatch l' l'' ->
  Forall2 equalMatch l l''.
Proof.
  intros H. revert l''. induction H as [|x y l l' Hxy _ IH]; intros l'' H';
    inversion H'; subst; constructor; eauto using equalMatch_trans.
Qed.

Lemma Forall2_equalMatch_refl (l : list Match) : Forall2 equalMatch l l.
Proof. induction l; constructor; [split; reflexivity|assumption]. Qed.

(** Two chains over a built tree that have an equal match have it at the
    same depth, and are equal, match by match, down to it. *)
Lemma chains_agree (routes : list Route) (d nf : option Route)
    (path path' : string) (before after before' after' : list Match)
    (a b : Match) :
  wellBuilt routes d nf ->
  findMatches path routes d nf = Some (before ++ a :: after) ->
  findMatches path' routes d nf = Some (before' ++ b :: after') ->
  equalMatch a b ->
  Forall2 equalMatch before before'.
Proof.
  intros Hbuilt Hfound Hfound' [Href Hparams].
  destruct (chains_same_routes _ _ _ _ _ _ _ _ _ _ _ Hbuilt Hfound Hfound'
              Href) as [Hroutes Hroute].
  destruct (chain_params _ _ _ _ _ Hbuilt Hfound) as (root & Hroot).
  destruct (chain_params _ _ _ _ _ Hbuilt Hfound') as (root' & Hroot').
  apply Forall_app in Hroot as [Hbefore Ha].
  apply Forall_app in Hroot' as [Hbefore' Hb].
  apply Forall_cons in Ha as [Ha _]. apply Forall_cons in Hb as [Hb _].
  assert (Hnames : Forall (fun m => route_paramNames (match_route m)
                                    ⊆ route_paramNames (match_route a))
                          before).
  { apply (nested_names routes d nf before a after Hbuilt).
    - intros m Hm. apply in_split in Hm as (l1 & l2 & ->).
      rewrite <- app_assoc in Hfound. cbn [app] in Hfound.
      apply chain_route_tried in Hfound. tauto.
    - destruct (findMatches_chainFor _ _ _ _ _ Hfound)
        as (? & ? & _ & _ & _ & Hnested). exact Hnested. }
  assert (Hread : forall name,
             name ∈ route_paramNames (match_route a) ->
             get root name = get root' name).
  { intros name Hin. pose proof (Ha name) as Hl. pose proof (Hb name) as Hl'.
    rewrite decide_True in Hl by exact Hin.
    rewrite decide_True in Hl' by (rewrite <- Hroute; exact Hin).
    congruence. }
  clear Hfound Hfound' Ha Hb.
  revert before' Hroutes Hbefore'.
  induction before as [|m before IH]; intros [|m' before'] Hroutes Hbefore';
    try discriminate; constructor.
  - cbn [map] in Hroutes. injection Hroutes as Hm _.
    apply Forall_cons in Hbefore as [Hm1 _].
    apply Forall_cons in Hbefore' as [Hm2 _].
    apply Forall_cons in Hnames as [Hsub _].
    split; [congruence|]. apply map_eq. intros name.
    rewrite Hm1, Hm2, <- Hm.
    destruct (decide (name ∈ route_paramNames (match_route m))) as [Hin|];
      [|reflexivity].
    f_equal. apply Hread, Hsub, Hin.
  - cbn [map] in Hroutes. injection Hroutes as _ Hrest.
    apply Forall_cons in Hbefore as [_ Hbefore].
    apply Forall_cons in Hbefore' as [_ Hbefore'].
    apply Forall_cons in Hnames as [_ Hnames].
    apply IH; assumption.
Qed.

(** The conditions under which [dispatch] diffs the two chains: the tree is
    built, the current chain is one that the router shows, and the next
    chain is what [match] returns. *)
Lemma same_route_same_names (routes : list Route) (d nf : option Route)
    (path path' : string) (currentMatches chain nextMatches : list Match)
    (a b : Match) :
  wellBuilt routes d nf ->
  findMatches path routes d nf = Some chain ->
  Forall2 equalMatch currentMatches chain ->
  findMatches path' routes d nf = Some nextMatches ->
  In a currentMatches ->
  In b nextMatches ->
  route_ref (match_route a) = route_ref (match_route b) ->
  dom (match_params a) = dom (match_params b).
Proof.
  intros Hbuilt Hfound Hshown Hfound' Ha Hb Href.
  apply in_split in Ha as (l1 & l2 & ->).
  apply in_split in Hb as (k1 & k2 & ->).
  apply Forall2_app_inv_l in Hshown as (c1 & c2 & _ & Hc & ->).
  apply Forall2_cons_inv_l in Hc as (a0 & c3 & [Href0 Hpar0] & _ & ->).
  destruct (chains_same_routes _ _ _ _ _ _ _ _ _ _ _ Hbuilt Hfound Hfound')
    as [_ Hroute]; [congruence|].
  destruct (chain_params _ _ _ _ _ Hbuilt Hfound) as (root & Hroot).
  destruct (chain_params _ _ _ _ _ Hbuilt Hfound') as (root' & Hroot').
  apply Forall_app in Hroot as [_ Ha]. apply Forall_cons in Ha as [Ha _].
  apply Forall_app in Hroot' as [_ Hb]. apply Forall_cons in Hb as [Hb _].
  rewrite Hpar0, (params_dom _ _ _ Ha), (params_dom _ _ _ Hb), Hroute.
  reflexivity.
Qed.

(** Beyond the longest common beginning of the two chains no match of one
    has an equal match in the other. *)
Lemma no_late_counterpart (routes : list Route) (d nf : option Route)
    (path path' : string) (chain : list Match)
    (shared shared' restA restB before after before' after' : list Match)
    (a b : Match) :
  wellBuilt routes d nf ->
  findMatches path routes d nf = Some chain ->
  Forall2 equalMatch (shared ++ restA) chain ->
  findMatches path' routes d nf = Some (shared' ++ restB) ->
  Forall2 equalMatch shared shared' ->
  (forall x y, head restA = Some x -> head restB = Some y ->
               ~ equalMatch x y) ->
  shared ++ restA = before ++ a :: after ->
  shared' ++ restB = before' ++ b :: after' ->
  equalMatch a b ->
  length shared <= length before \/ length shared' <= length before' ->
  False.
Proof.
  intros Hbuilt Hfound Hshown Hfound' Hshared Hmax HA HB Hab Hlate.
  rewrite HA in Hshown. rewrite HB in Hfound'.
  apply Forall2_app_inv_l in Hshown as (c1 & c2 & Hc1 & Hc & ->).
  apply Forall2_cons_inv_l in Hc as (a0 & c3 & Ha0 & _ & ->).
  assert (Hpre : Forall2 equalMatch before before').
  { eapply Forall2_equalMatch_trans; [exact Hc1|].
    eapply chains_agree; [exact Hbuilt|exact Hfound|exact Hfound'|].
    eapply equalMatch_trans; [apply equalMatch_sym, Ha0|exact Hab]. }
  pose proof (Forall2_length _ _ _ Hpre) as Hlen.
  pose proof (Forall2_length _ _ _ Hshared) as Hlen'.
  assert (Hn : length shared <= length before) by lia.
  assert (Hall : Forall2 equalMatch (before ++ [a]) (before' ++ [b])).
  { apply Forall2_app; [exact Hpre|]. constructor; [exact Hab|constructor]. }
  assert (HxA : (before ++ [a]) !! length shared = head restA).
  { transitivity ((shared ++ restA) !! length shared).
    - rewrite HA. rewrite (cons_middle a before after), app_assoc.
      symmetry. apply lookup_app_l. rewrite length_app. simpl. lia.
    - rewrite lookup_app_r by lia. rewrite Nat.sub_diag.
      destruct restA; reflexivity. }
  assert (HxB : (before' ++ [b]) !! length shared = head restB).
  { transitivity ((shared' ++ restB) !! length shared).
    - rewrite HB. rewrite (cons_middle b before' after'), app_assoc.
      symmetry. apply lookup_app_l. rewrite length_app. simpl. lia.
    - rewrite lookup_app_r by lia. rewrite Hlen', Nat.sub_diag.
      destruct restB; reflexivity. }
  destruct ((before ++ [a]) !! length shared) as [x|] eqn:Hx.
  - destruct (Forall2_lookup_l _ _ _ _ _ Hall Hx) as (y & Hy & Hxy).
    apply (Hmax x y); [congruence|congruence|exact Hxy].
  - apply lookup_ge_None in Hx. rewrite length_app in Hx. simpl in Hx. lia.
Qed.

(** Two chains have a longest common beginning. *)
Lemma longest_common (A B : list Match) :
  exists shared shared' restA restB,
    A = shared ++ restA /\
    B = shared' ++ restB /\
    Forall2 equalMatch shared shared' /\
    (forall x y, head restA = Some x -> head restB = Some y ->
                 ~ equalMatch x y).
Proof.
  revert B. induction A as [|x A IH]; intros B.
  - exists [], [], [], B. repeat split; [constructor|discriminate].
  - destruct B as [|y B].
    { exists [], [], (x :: A), []. repeat split; [constructor|discriminate]. }
    destruct (decide (route_ref (match_route x) = route_ref (match_route y)
                      /\ match_params x = match_params y)) as [Hxy|Hxy].
    + destruct (IH B) as (shared & shared' & restA & restB
                          & -> & -> & Hshared & Hmax).
      exists (x :: shared), (y :: shared'), restA, restB.
      repeat split; [constructor; assumption|exact Hmax].
    + exists [], [], (x :: A), (y :: B).
      repeat split; [constructor|]. intros ? ? [= <-] [= <-]. exact Hxy.
Qed.

(** ** The diff of a dispatch over a built tree *)

Lemma diffMatches_built (routes : list Route) (d nf : option Route)
    (found : option (list Match)) (path : string)
    (currentMatches shared shared' restA restB : list Match) :
  wellBuilt routes d nf ->
  shows routes d nf currentMatches ->
  findMatches path routes d nf = found ->
  currentMatches = shared ++ restA ->
  default [] found = shared' ++ restB ->
  Forall2 equalMatch shared shared' ->
  (forall x y, head restA = Some x -> head restB = Some y ->
               ~ equalMatch x y) ->
  diffMatches currentMatches (default [] found) = (restA, restB).
Proof.
  intros Hbuilt Hshows Hfound HA HB Hshared Hmax.
  destruct Hshows as [->|(path0 & chain & Hchain & Hshown)].
  { symmetry in HA. apply app_eq_nil in HA as [-> ->].
    inversion Hshared; subst. rewrite HB. reflexivity. }
  destruct found as [nextMatches|]; cbn [default from_option id] in *.
  2:{ symmetry in HB. apply app_eq_nil in HB as [-> ->].
      inversion Hshared; subst. apply diffMatches_none. }
  subst currentMatches nextMatches.
  apply diffMatches_split.
  - exact Hshared.
  - intros a b Ha Hb.
    exact (same_route_same_names _ _ _ _ _ _ _ _ a b Hbuilt Hchain Hshown
             Hfound Ha Hb).
  - intros a b Ha Hb Hab.
    apply in_split in Ha as (r1 & r2 & ->).
    apply in_split in Hb as (k1 & k2 & Hk).
    eapply (no_late_counterpart routes d nf path0 path chain shared shared'
              (r1 ++ a :: r2) restB (shared ++ r1) r2 k1 k2 a b);
      try eassumption.
    + rewrite <- app_assoc. reflexivity.
    + left. rewrite length_app. lia.
  - intros a b Ha Hb Hab.
    apply in_split in Hb as (r1 & r2 & ->).
    apply in_split in Ha as (k1 & k2 & Hk).
    eapply (no_late_counterpart routes d nf path0 path chain shared shared'
              restA (r1 ++ b :: r2) k1 k2 (shared' ++ r1) r2 a b);
      try eassumption.
    + rewrite <- app_assoc. reflexivity.
    + right. rewrite length_app. lia.
Qed.

(** What the two filters of the diff compute over a built tree: the
    current chain is cut where the two chains begin to differ. *)
Lemma diffMatches_cut (routes : list Route) (d nf : option Route)
    (found : option (list Match)) (path : string)
    (currentMatches : list Match) :
  wellBuilt routes d nf ->
  shows routes d nf currentMatches ->
  findMatches path routes d nf = found ->
  exists shared shared',
    currentMatches
    = shared ++ fst (diffMatches currentMatches (default [] found)) /\
    default [] found
    = shared' ++ snd (diffMatches currentMatches (default [] found)) /\
    Forall2 equalMatch shared shared'.
Proof.
  intros Hbuilt Hshows Hfound.
  destruct (longest_common currentMatches (default [] found))
    as (shared & shared' & restA & restB & HA & HB & Hshared & Hmax).
  rewrite (diffMatches_built _ _ _ _ _ _ _ _ _ _ Hbuilt Hshows Hfound HA HB
             Hshared Hmax).
  exists shared, shared'. auto.
Qed.

(** The chain of the pending state is again one that the router shows. *)
Lemma resolvedState_shows (router : Router) (path : string) (query : Params)
    (currentMatches : list Match) :
  let nextMatches := default [] (Router_match router path) in
  wellBuilt (routes router) (defaultRoute router) (notFoundRoute router) ->
  shows (routes router) (defaultRoute router) (notFoundRoute router)
        currentMatches ->
  exists shared shared',
    currentMatches
    = shared ++ fst (diffMatches currentMatches nextMatches) /\
    nextMatches = shared' ++ snd (diffMatches currentMatches nextMatches) /\
    Forall2 equalMatch shared shared' /\
    state_matches
      (resolvedState path query currentMatches
         (fst (diffMatches currentMatches nextMatches))
         (snd (diffMatches currentMatches nextMatches)))
    = shared ++ snd (diffMatches currentMatches nextMatches) /\
    shows (routes router) (defaultRoute router) (notFoundRoute router)
          (shared ++ snd (diffMatches currentMatches nextMatches)).
Proof.
  intros nextMatches Hbuilt Hshows. subst nextMatches. unfold Router_match.
  destruct (diffMatches_cut _ _ _ _ (withoutQuery path) _ Hbuilt Hshows
              eq_refl) as (shared & shared' & HA & HB & Hshared).
  exists shared, shared'. split; [exact HA|]. split; [exact HB|].
  split; [exact Hshared|]. split.
  - cbn [resolvedState state_matches]. f_equal.
    rewrite HA at 1 3. rewrite length_app.
    match goal with
    | |- take (?n + ?k - ?k) _ = _ => replace (n + k - k) with n by lia
    end.
    apply take_app_length.
  - destruct (findMatches _ _ _ _) as [nextMatches|] eqn:Hfound;
      cbn [default from_option id] in *.
    + right. exists (withoutQuery path), nextMatches.
      split; [exact Hfound|]. rewrite HB at 2.
      apply Forall2_app; [exact Hshared|]. apply Forall2_equalMatch_refl.
    + left. symmetry in HB. apply app_eq_nil in HB as [-> ->].
      inversion Hshared. reflexivity.
Qed.

(** Every router that a new router over a built tree becomes shows such
    a chain, and holds one as pending. *)
Lemma reached_shows (routes0 : list Route) (d nf : option Route)
    (router : Router) :
  wellBuilt routes0 d nf ->
  reached routes0 d nf router ->
  (routes router = routes0 /\ defaultRoute router = d
   /\ notFoundRoute router = nf) /\
  (forall currentMatches,
     currentMatchesOf (state router) = Some currentMatches ->
     shows routes0 d nf currentMatches) /\
  (forall s, _nextState router = Some s ->
             shows routes0 d nf (state_matches s)).
Proof.
  intros Hbuilt. induction 1 as [|router router' path t trace _ IH Hrun
                                  |router _ IH].
  - split; [auto|]. split; [|discriminate].
    intros currentMatches [= <-]. left. reflexivity.
  - destruct IH as ((Hr & Hd & Hnf) & Hstate & Hnext).
    assert (Hsame : router' = router \/
              exists currentMatches,
                currentMatchesOf (state router) = Some currentMatches /\
                router' =
                setNextState router
                  (resolvedState path (default ∅ (extractQuery path))
                     currentMatches
                     (fst (diffMatches currentMatches
                             (default [] (Router_match router path))))
                     (snd (diffMatches currentMatches
                             (default [] (Router_match router path)))))).
    { destruct (dispatch_outcome _ _ _ _ _ Hrun)
        as [(_ & -> & _)|[(_ & -> & _)|(_ & _ & H)]]; auto. }
    destruct Hsame as [->|(currentMatches & Hcur & ->)]; [auto|].
    split; [auto|]. split; [exact Hstate|].
    intros s [= <-].
    destruct (resolvedState_shows router path
                (default ∅ (extractQuery path)) currentMatches)
      as (shared & shared' & _ & _ & _ & -> & Hshows).
    + rewrite Hr, Hd, Hnf. exact Hbuilt.
    + rewrite Hr, Hd, Hnf. apply Hstate, Hcur.
    + rewrite Hr, Hd, Hnf in Hshows. exact Hshows.
  - destruct IH as (Htree & _ & Hnext).
    split; [exact Htree|]. split; [|discriminate].
    cbn [flipSwitch state]. destruct (_nextState router) as [s|];
      [|discriminate].
    intros currentMatches [= <-]. apply Hnext. reflexivity.
Qed.

(** C2: in every dispatch of a router over a built tree, when the current
    chain and the next chain begin with pairwise-equal matches and differ
    right after them, the leaving matches are exactly the rest of the
    current chain and the entering matches exactly the rest of the next
    chain.  The two chains always divide in this way, so the leaving
    matches are always the end of the current chain and the entering
    matches the end of the next one.  With an empty current chain nothing
    leaves and the whole next chain enters. *)
Theorem dispatch_diff_prefix (router : Router) (path : string)
    (currentMatches : list Match) :
  let nextMatches := default [] (Router_match router path) in
  let leaving := fst (diffMatches currentMatches nextMatches) in
  let entering := snd (diffMatches currentMatches nextMatches) in
  wellBuilt (routes router) (defaultRoute router) (notFoundRoute router) ->
  shows (routes router) (defaultRoute router) (notFoundRoute router)
        currentMatches ->
  currentMatchesOf (state router) = Some currentMatches ->
  (forall shared shared' restA restB,
     currentMatches = shared ++ restA ->
     nextMatches = shared' ++ restB ->
     Forall2 equalMatch shared shared' ->
     (forall a b, head restA = Some a -> head restB = Some b ->
                  ~ equalMatch a b) ->
     leaving = restA /\ entering = restB) /\
  (exists shared shared',
     currentMatches = shared ++ leaving /\
     nextMatches = shared' ++ entering /\
     Forall2 equalMatch shared shared') /\
  (currentMatches = [] -> leaving = [] /\ entering = nextMatches).
Proof.
  intros nextMatches leaving entering Hbuilt Hshows _.
  subst leaving entering nextMatches. unfold Router_match.
  split; [|split].
  - intros shared shared' restA restB HA HB Hshared Hmax.
    rewrite (diffMatches_built _ _ _ _ (withoutQuery path) _ _ _ _ _ Hbuilt
               Hshows eq_refl HA HB Hshared Hmax).
    split; reflexivity.
  - exact (diffMatches_cut _ _ _ _ (withoutQuery path) _ Hbuilt Hshows
             eq_refl).
  - intros ->. split; reflexivity.
Qed.

(** C3: after a dispatch, over a built tree, that ended with no error and
    no abort, the matches of the pending state are the unchanged beginning
    of the current chain, which is all the current matches that are not
    leaving, followed by the entering matches; its routes are the routes
    of those matches in order, its path is the dispatched path and its
    query the parsed query (the empty object when there is none).  The
    committed state is as it was, and the pending chain is again one that
    the router can show. *)
Theorem dispatch_pending_chain (router router' : Router) (path : string)
    (t : Transition) (trace : list Event) (reason : option Reason)
    (currentMatches : list Match) :
  let nextMatches := default [] (Router_match router path) in
  let leaving := fst (diffMatches currentMatches nextMatches) in
  let entering := snd (diffMatches currentMatches nextMatches) in
  wellBuilt (routes router) (defaultRoute router) (notFoundRoute router) ->
  shows (routes router) (defaultRoute router) (notFoundRoute router)
        currentMatches ->
  currentMatchesOf (state router) = Some currentMatches ->
  dispatch router path = Ran router' t trace ->
  last trace = Some (Callback None reason) ->
  isAborted t = false ->
  exists s unchanged,
    _nextState router' = Some s /\
    currentMatches = unchanged ++ leaving /\
    unchanged = List.filter (hasMatch nextMatches) currentMatches /\
    state_matches s = unchanged ++ entering /\
    state_routes s = map match_route (state_matches s) /\
    state_path s = path /\
    state_query s = default ∅ (extractQuery path) /\
    state router' = state router /\
    shows (routes router') (defaultRoute router') (notFoundRoute router')
          (state_matches s).
Proof.
  intros nextMatches leaving entering Hbuilt Hshows Hcur Hrun Hlast Ht.
  destruct (resolvedState_shows router path (default ∅ (extractQuery path))
              currentMatches Hbuilt Hshows)
    as (shared & shared' & HA & _ & _ & Hm & Hnew).
  fold nextMatches in HA, Hm, Hnew. fold leaving in HA.
  fold entering in Hm, Hnew.
  destruct (pending_state_sliced router router' path t trace reason
              currentMatches shared Hrun Hlast Ht Hcur HA)
    as (s & Hs & Hfilter & Hkept & Hroutes & Hpath & Hquery & Hstate).
  fold nextMatches in Hfilter. fold entering in Hfilter, Hkept.
  destruct (dispatch_frame _ _ _ _ _ Hrun) as (_ & Hr & Hd & Hnf).
  exists s, shared. split; [exact Hs|]. split; [exact HA|].
  split; [|split; [exact Hkept|]].
  - rewrite Hkept in Hfilter. apply app_inv_tail in Hfilter. exact Hfilter.
  - split; [exact Hroutes|]. split; [exact Hpath|]. split; [exact Hquery|].
    split; [exact Hstate|]. rewrite Hr, Hd, Hnf, Hkept. exact Hnew.
Qed.


End Built.

(** ** The examples, evaluated *)

(** The example of the documentation of [match]. *)
Example match_posts_123 :
  Router_match (paths := simplePath) blogRouter "/posts/123"
  = Some [newMatch appRoute ∅; newMatch postRoute (idParams "123")].
Proof. vm_compute. reflexivity. Qed.

(** C1, on the documentation's tree: [posts] fails on [/posts/123], so
    [post], the next sibling, decides. *)
Lemma findMatches_search_witness :
  findMatches (paths := simplePath) "/posts/123"
              ([postsRoute] ++ postRoute :: []) None None
  = Some [newMatch postRoute (idParams "123")].
Proof.
  apply (proj1 (proj2 (proj2
           (findMatches_search (paths := simplePath) "/posts/123")))).
  - repeat constructor.
  - vm_compute. reflexivity.
Defined.

(** Outside a built tree: a match whose params strictly extend those of a
    member with the same route has a counterpart for [hasMatch], although
    no member has the same parameter mapping.  No pattern extracts two
    different sets of names, so no search returns such a pair. *)
Example hasMatch_superset :
  hasMatch [newMatch postRoute ∅] (newMatch postRoute (idParams "1")) = true /\
  match_params (newMatch postRoute ∅)
    <> match_params (newMatch postRoute (idParams "1")) /\
  (forall m, In m [newMatch postRoute ∅] ->
             ~ equalMatch m (newMatch postRoute (idParams "1"))).
Proof.
  assert (Hne : (∅ : Params) <> idParams "1").
  { intros H. apply (f_equal (fun m : Params => m !! "id")) in H.
    vm_compute in H. discriminate. }
  split; [vm_compute; reflexivity|]. split; [exact Hne|].
  intros m [<-|[]] [_ Hp]. exact (Hne Hp).
Qed.

(** Outside a built tree: in a tree whose middle route declares no
    parameter while its parent and its child both declare [a], going from
    [/z/1] to [/z/2] the outer (11) and the inner (13) match leave while
    the middle one (12) stays, and the pending chain begins with the outer
    match that is leaving.  The route builder refuses such a tree: a
    nested path has to name every parameter of its parent. *)
Example pending_state_unbuilt :
  exists router' t trace s currentMatches,
    exampleDispatch nestedRouter "/z/2" = Ran router' t trace /\
    last trace = Some (Callback None None) /\
    isAborted t = false /\
    _nextState router' = Some s /\
    currentMatchesOf (state nestedRouter) = Some currentMatches /\
    let nextMatches :=
      default [] (Router_match (paths := simplePath) nestedRouter
                               "/z/2") in
    let entering := snd (diffMatches currentMatches nextMatches) in
    map (fun m => route_ref (match_route m)) currentMatches
      = [11; 12; 13] /\
    map (fun m => route_ref (match_route m)) entering = [11; 13] /\
    map (fun m => route_ref (match_route m)) (state_matches s)
      = [11; 11; 13] /\
    map (fun m => route_ref (match_route m))
        (List.filter (hasMatch nextMatches) currentMatches ++ entering)
      = [12; 11; 13].
Proof.
  eexists _, _, _, _, _.
  split; [reflexivity|]. split; [vm_compute; reflexivity|].
  split; [vm_compute; reflexivity|]. split; [reflexivity|].
  split; [reflexivity|]. cbv zeta.
  split; [vm_compute; reflexivity|]. split; [vm_compute; reflexivity|].
  split; [vm_compute; reflexivity|]. vm_compute; reflexivity.
Qed.

(** The example path utilities extract exactly the names of a pattern. *)
Lemma matchSegments_dom (patterns segs : list string) (params : Params) :
  matchSegments patterns segs = Some params ->
  dom params = list_to_set (namesIn patterns).
Proof.
  revert segs params.
  induction patterns as [|p ps IH]; intros [|s ss] params; cbn [matchSegments];
    try discriminate.
  - intros [= <-]. apply dom_empty_L.
  - unfold namesIn. cbn [omap list_omap]. fold (namesIn ps).
    destruct (String.prefix ":" p).
    + destruct (String.eqb s ""); [discriminate|].
      destruct (matchSegments ps ss) as [m|] eqn:Hm; [|discriminate].
      intros [= <-]. rewrite dom_insert_L, (IH _ _ Hm). reflexivity.
    + destruct (String.eqb p s); [|discriminate]. apply IH.
Qed.

(** The documentation's tree is a built tree. *)
Lemma blog_wellBuilt : wellBuilt (paths := simplePath) [appRoute] None None.
Proof.
  split.
  - apply (bool_decide_unpack _). vm_compute. exact I.
  - intros r path params Hr Hp. apply matchSegments_dom in Hp. rewrite Hp.
    destruct Hr as [<-|[<-|[<-|[]]]]; vm_compute; reflexivity.
  - intros parent child [<-|[<-|[<-|[]]]] Hchild name Hname;
      solve [inversion Hname
            |destruct Hchild as [[]|[H|H]]; discriminate H].
  - intros r [<-|[<-|[<-|[]]]] Hin; apply list_elem_of_In in Hin;
      simpl in Hin; intuition discriminate.
Qed.

(** The router showing [/posts/123] is what the documentation's router
    becomes by a dispatch and a commit, so it shows a chain that [match]
    returned. *)
Lemma postRouter_shows :
  currentMatchesOf (state postRouter)
  = Some [newMatch appRoute ∅; newMatch postRoute (idParams "123")] /\
  shows (paths := simplePath) [appRoute] None None
        [newMatch appRoute ∅; newMatch postRoute (idParams "123")].
Proof.
  assert (Hreached : reached (paths := simplePath) [appRoute] None None
                             postRouter).
  { destruct (exampleDispatch blogRouter "/posts/123")
      as [|router' t trace|stalled] eqn:Hrun;
      [vm_compute in Hrun; discriminate| |vm_compute in Hrun; discriminate].
    replace postRouter with (flipSwitch router').
    - apply reached_flipSwitch.
      eapply reached_dispatch; [apply reached_new|exact Hrun].
    - unfold postRouter, exampleDispatchAndFlip, dispatchAndFlip.
      unfold exampleDispatch in Hrun. fold blogRouter. rewrite Hrun.
      reflexivity. }
  assert (Hcur : currentMatchesOf (state postRouter)
                 = Some [newMatch appRoute ∅;
                         newMatch postRoute (idParams "123")]).
  { vm_compute. reflexivity. }
  split; [exact Hcur|].
  exact (proj1 (proj2 (reached_shows _ _ _ _ blog_wellBuilt Hreached))
           _ Hcur).
Qed.

(** C2, on the router showing [/posts/123]: going to [/posts], the two
    chains begin with [app] and differ after it; [post] leaves and [posts]
    enters. *)
Lemma dispatch_diff_prefix_witness :
  let nextMatches :=
    default [] (Router_match (paths := simplePath) postRouter "/posts") in
  let currentMatches :=
    [newMatch appRoute ∅; newMatch postRoute (idParams "123")] in
  fst (diffMatches currentMatches nextMatches)
    = [newMatch postRoute (idParams "123")] /\
  snd (diffMatches currentMatches nextMatches) = [newMatch postsRoute ∅].
Proof.
  cbv zeta.
  apply (proj1 (dispatch_diff_prefix (paths := simplePath) postRouter
                  "/posts" _ blog_wellBuilt (proj2 postRouter_shows)
                  (proj1 postRouter_shows))
           [newMatch appRoute ∅] [newMatch appRoute ∅]).
  - reflexivity.
  - vm_compute. reflexivity.
  - repeat constructor.
  - intros a b [= <-] [= <-] [Href _]. discriminate Href.
Defined.

(** C3, on the router showing [/posts/123]: going to [/posts], [app] is
    unchanged, [post] leaves and [posts] enters; the pending chain is
    [app], [posts]. *)
Lemma dispatch_pending_chain_witness :
  exists router' t trace s,
    exampleDispatch postRouter "/posts" = Ran router' t trace /\
    _nextState router' = Some s /\
    state_matches s = [newMatch appRoute ∅; newMatch postsRoute ∅] /\
    state_routes s = [appRoute; postsRoute] /\
    state_path s = "/posts" /\
    state_query s = ∅ /\
    state router' = state postRouter.
Proof.
  destruct (exampleDispatch postRouter "/posts")
    as [|router' t trace|stalled] eqn:Hrun;
    [vm_compute in Hrun; discriminate| |vm_compute in Hrun; discriminate].
  assert (Hlast : last trace = Some (Callback None None)).
  { vm_compute in Hrun. injection Hrun as _ _ <-. reflexivity. }
  assert (Ht : isAborted t = false).
  { vm_compute in Hrun. injection Hrun as _ <- _. reflexivity. }
  destruct (dispatch_pending_chain (paths := simplePath)
              postRouter router' "/posts" t trace None _
              blog_wellBuilt (proj2 postRouter_shows)
              (proj1 postRouter_shows) Hrun Hlast Ht)
    as (s & unchanged & Hs & _ & Hu & Hm & Hr & Hp & Hq & Hstate & _).
  exists router', t, trace, s.
  split; [reflexivity|]. split; [exact Hs|].
  assert (Hm' : state_matches s
                = [newMatch appRoute ∅; newMatch postsRoute ∅]).
  { rewrite Hm, Hu. vm_compute. reflexivity. }
  split; [exact Hm'|].
  split; [rewrite Hr, Hm'; reflexivity|].
  split; [exact Hp|]. split; [exact Hq|exact Hstate].
Defined.

(** C9, counterexample to the claim as stated: for [/posts/123] the
    pending [params] is [{id: "123"}], the params of the last match, while
    the first match of the chain, the root, has the empty params. *)
Lemma dispatch_pending_params_counterexample :
  exists router' t trace s root,
    exampleDispatch blogRouter "/posts/123" = Ran router' t trace /\
    last trace = Some (Callback None None) /\
    isAborted t = false /\
    _nextState router' = Some s /\
    head (state_matches s) = Some root /\
    match_params root = ∅ /\
    state_params s = idParams "123" /\
    state_params s <> match_params root.
Proof.
  eexists _, _, _, _, _.
  split; [reflexivity|]. split; [vm_compute; reflexivity|].
  split; [vm_compute; reflexivity|]. split; [reflexivity|].
  split; [reflexivity|]. split; [vm_compute; reflexivity|].
  split; [vm_compute; reflexivity|].
  intros H. apply (f_equal (fun m : Params => m !! "id")) in H.
  vm_compute in H. discriminate H.
Qed.

Lemma dispatch_pending_params_witness :
  exists router' t trace s,
    exampleDispatch blogRouter "/posts/123" = Ran router' t trace /\
    _nextState router' = Some s /\
    last (state_matches s) = Some (newMatch postRoute (idParams "123")) /\
    state_params s = idParams "123".
Proof.
  destruct (exampleDispatch blogRouter "/posts/123")
    as [|router' t trace|stalled] eqn:Hrun;
    [vm_compute in Hrun; discriminate| |vm_compute in Hrun; discriminate].
  assert (Hlast : last trace = Some (Callback None None)).
  { vm_compute in Hrun. injection Hrun as _ _ <-. reflexivity. }
  assert (Ht : isAborted t = false).
  { vm_compute in Hrun. injection Hrun as _ <- _. reflexivity. }
  destruct (dispatch_pending_params (paths := simplePath)
              _ _ _ _ _ _ Hrun Hlast Ht) as (s & Hs & Hp).
  exists router', t, trace, s.
  assert (Hm : last (state_matches s)
               = Some (newMatch postRoute (idParams "123"))).
  { vm_compute in Hrun. injection Hrun as <- _ _.
    injection Hs as <-. vm_compute. reflexivity. }
  rewrite Hm in Hp. repeat split; auto.
Defined.


(** The same when the abort is made while the chain waits: entering
    [/wizard/step], the wizard's hook waits for a confirmation that is
    declined; the entering hook of [step] is not called, and the callback
    gets the reason. *)
Example abort_during_wait :
  exists router' t call after,
    exampleDispatch (newRouter [wizardRoute] None None) "/wizard/step"
    = Ran router' t ([call] ++ Await confirmation :: after) /\
    map label (call :: Await confirmation :: after)
      = [LTo 41; LAwait 9; LMicrotask; LSetTimeout;
         LCallback None (Some declined)] /\
    _nextState router' = None.
Proof.
  eexists _, _, _, _. split; [vm_compute; reflexivity|].
  split; reflexivity.
Qed.




(** C5, the code at the failing input: leaving [/draft] for [/about], the
    draft's [willTransitionFrom] calls [transition.wait(p)] and returns
    nothing.  The entering hook of [about] is called right after it, and
    only then does the chain wait for [p] (promise 7). *)
Theorem entering_hook_runs_before_leaving_wait :
  exists router' t trace,
    exampleDispatch draftRouter "/about" = Ran router' t trace /\
    map label trace
      = [LFrom 25; LTo 23; LAwait 7; LSetTimeout; LCallback None None].
Proof.
  eexists _, _, _. split; [reflexivity|vm_compute; reflexivity].
Qed.

(** C8, the code at the failing input: leaving [/inbox/draft] for
    [/about], the draft's [willTransitionFrom] calls [transition.wait(p)].
    The promise is not consumed after that hook: the [willTransitionFrom]
    of [inbox], called next and inline, still finds it on the transition,
    and it is the entering hook of [about] that takes it and has the chain
    wait. *)
Theorem leaving_hook_promise_not_consumed :
  exists router' t trace m t1,
    exampleDispatch inboxRouter "/about" = Ran router' t trace /\
    map label trace
      = [LFrom 22; LFrom 21; LTo 23; LAwait 7; LSetTimeout;
         LCallback None None] /\
    trace !! 1 = Some (CallFrom m (Normal t1 None)) /\
    promise t1 = Some slowPromise.
Proof.
  eexists _, _, _, _, _. split; [reflexivity|].
  split; [vm_compute; reflexivity|].
  split; [vm_compute; reflexivity|reflexivity].
Qed.


Lemma dispatch_calls_back_once_witness :
  (exists router' t trace,
     exampleDispatch formRouter "/about" = Ran router' t trace /\
     (exists steps error reason,
        trace = steps ++ [Callback error reason] /\
        Forall (fun e => isCallback e = false) steps) /\
     state router' = state formRouter) /\
  (exists trace steps p,
     exampleDispatch (newRouter [stuckRoute] None None) "/stuck"
     = Stalled trace /\
     trace = steps ++ [Await p] /\
     settles p = Never /\
     Forall (fun e => isCallback e = false) trace).
Proof.
  split.
  - destruct (exampleDispatch formRouter "/about")
      as [|router' t trace|stalled] eqn:Hrun;
      [vm_compute in Hrun; discriminate| |vm_compute in Hrun; discriminate].
    destruct (dispatch_calls_back_once (paths := simplePath) _ _ _ Hrun)
      as (Hsteps & _ & Hstate & _).
    exists router', t, trace. auto.
  - destruct (exampleDispatch (newRouter [stuckRoute] None None) "/stuck")
      as [|router' t trace|trace] eqn:Hrun;
      [vm_compute in Hrun; discriminate..|].
    destruct (dispatch_calls_back_once (paths := simplePath) _ _ _ Hrun)
      as ((steps & p & Hsteps & Hp & _) & Hnone).
    exists trace, steps, p. auto.
Defined.

(** The chain of [/posts/123]: [app], whose declared names are none, then
    [post] with the params of its pattern. *)
Lemma findMatches_chain_witness :
  chainFor (paths := simplePath) "/posts/123"
           [newMatch appRoute ∅; newMatch postRoute (idParams "123")] /\
  startsIn [newMatch appRoute ∅; newMatch postRoute (idParams "123")]
           [appRoute] None None.
Proof.
  apply (findMatches_chain (paths := simplePath)).
  vm_compute. reflexivity.
Defined.


Lemma dispatch_stores_next_state_witness :
  exists router' t trace s,
    exampleDispatch postRouter "/posts" = Ran router' t trace /\
    _nextState router' = Some s /\
    map (fun m => route_ref (match_route m)) (state_matches s) = [1; 2] /\
    state_path s = "/posts".
Proof.
  destruct (exampleDispatch postRouter "/posts")
    as [|router' t trace|stalled] eqn:Hrun;
    [vm_compute in Hrun; discriminate| |vm_compute in Hrun; discriminate].
  assert (Hlast : last trace = Some (Callback None None)).
  { vm_compute in Hrun. injection Hrun as _ _ <-. reflexivity. }
  assert (Ht : isAborted t = false).
  { vm_compute in Hrun. injection Hrun as _ <- _. reflexivity. }
  destruct (dispatch_stores_next_state (paths := simplePath)
              _ _ _ _ _ _ Hrun Hlast Ht) as (currentMatches & Hcur & ->).
  eexists _, t, trace, _. split; [reflexivity|]. split; [reflexivity|].
  injection Hcur as <-. split; [vm_compute; reflexivity|reflexivity].
Defined.

(** Leaving [/draft] for [/about], the chain waits for promise 7, and the
    callback is not inline. *)
Lemma callback_inline_iff_witness :
  exists router' t trace,
    exampleDispatch draftRouter "/about" = Ran router' t trace /\
    In (Await slowPromise) trace /\
    callbackInline trace = false.
Proof.
  destruct (exampleDispatch draftRouter "/about")
    as [|router' t trace|stalled] eqn:Hrun;
    [vm_compute in Hrun; discriminate| |vm_compute in Hrun; discriminate].
  assert (Hin : In (Await slowPromise) trace).
  { vm_compute in Hrun. injection Hrun as _ _ <-.
    right. right. left. reflexivity. }
  exists router', t, trace. split; [reflexivity|]. split; [exact Hin|].
  exact (proj2 (callback_inline_iff (paths := simplePath) _ _ _ _ _ Hrun)
           slowPromise Hin).
Defined.

(** ** The further properties, on the examples *)

(** X8 on [/by/:constructor > /terms]: the path [/terms] has no
    parameter, and the outer match gets, under its declared name
    [constructor], what the read of that name from [{}] gives: the member
    of [Object.prototype]. *)
Lemma findMatches_ancestor_params_witness :
  exists ancestors deepest,
    [newMatch makerRoute {["constructor" := inherited "constructor"]};
     newMatch termsRoute ∅]
    = ancestors ++ [deepest] /\
    Forall (fun m =>
              forall name,
                match_params m !! name
                = if decide (name ∈ route_paramNames (match_route m)
                             /\ name <> "__proto__")
                  then Some (get (match_params deepest) name)
                  else None)
           ancestors.
Proof.
  apply (findMatches_ancestor_params (paths := simplePath) "/terms"
           [makerRoute] None None).
  vm_compute. reflexivity.
Defined.

(** X9: the blog's handlers define no hooks; going from [/posts/123] to
    [/posts] calls nothing and stores the state at once. *)
Lemma dispatch_without_hooks_witness :
  exists s,
    exampleDispatch postRouter "/posts"
    = Ran (setNextState postRouter s) (newTransition "/posts")
          [Callback None None] /\
    map (fun m => route_ref (match_route m)) (state_matches s) = [1; 2].
Proof.
  eexists. split.
  - apply (dispatch_without_hooks (paths := simplePath) postRouter "/posts"
             [newMatch appRoute ∅; newMatch postRoute (idParams "123")]).
    + vm_compute. reflexivity.
    + vm_compute. repeat constructor.
    + vm_compute. repeat constructor.
  - vm_compute. reflexivity.
Defined.

(** X10: the router shows [/inbox/draft], whose two handlers define
    [willTransitionFrom]; dispatching [/inbox/draft] again calls neither. *)
Lemma dispatch_same_chain_witness :
  exists s,
    exampleDispatch inboxRouter "/inbox/draft"
    = Ran (setNextState inboxRouter s) (newTransition "/inbox/draft")
          [Callback None None] /\
    state_matches s = [newMatch inboxRoute ∅; newMatch draftRoute ∅].
Proof.
  eexists. split.
  - apply (dispatch_same_chain (paths := simplePath) inboxRouter
             "/inbox/draft" [newMatch inboxRoute ∅; newMatch draftRoute ∅]).
    + vm_compute. reflexivity.
    + vm_compute. repeat (constructor; [split; reflexivity|]). constructor.
  - reflexivity.
Defined.

(** X11: no route of the blog matches [/nowhere]. *)
Lemma dispatch_unmatched_path_witness :
  exists router' t trace,
    exampleDispatch postRouter "/nowhere" = Ran router' t trace /\
    _nextState router' =
    Some {| state_matches := []; state_path := "/nowhere";
            state_routes := []; state_params := ∅; state_query := ∅ |}.
Proof.
  destruct (exampleDispatch postRouter "/nowhere")
    as [|router' t trace|stalled] eqn:Hrun;
    [vm_compute in Hrun; discriminate| |vm_compute in Hrun; discriminate].
  assert (Hlast : last trace = Some (Callback None None)).
  { vm_compute in Hrun. injection Hrun as _ _ <-. reflexivity. }
  assert (Hnot : isAborted t = false).
  { vm_compute in Hrun. injection Hrun as _ <- _. reflexivity. }
  exists router', t, trace. split; [reflexivity|].
  apply (proj2 (dispatch_unmatched_path (paths := simplePath) postRouter
                  router' "/nowhere" t trace None
                  [newMatch appRoute ∅; newMatch postRoute (idParams "123")]
                  eq_refl eq_refl) Hrun Hlast Hnot).
Defined.

(** X12: the first dispatch of the blog's router, to [/posts/123]. *)
Lemma redispatch_after_commit_witness :
  exists router' t trace s,
    exampleDispatch blogRouter "/posts/123" = Ran router' t trace /\
    state (flipSwitch router') = Resolved s /\
    state_matches s
    = [newMatch appRoute ∅; newMatch postRoute (idParams "123")] /\
    exampleDispatch (flipSwitch router') "/posts/123" =
    Ran (setNextState (flipSwitch router') s) (newTransition "/posts/123")
        [Callback None None].
Proof.
  destruct (exampleDispatch blogRouter "/posts/123")
    as [|router' t trace|stalled] eqn:Hrun;
    [vm_compute in Hrun; discriminate| |vm_compute in Hrun; discriminate].
  assert (Hlast : last trace = Some (Callback None None)).
  { vm_compute in Hrun. injection Hrun as _ _ <-. reflexivity. }
  assert (Hnot : isAborted t = false).
  { vm_compute in Hrun. injection Hrun as _ <- _. reflexivity. }
  destruct (redispatch_after_commit (paths := simplePath) [appRoute] None None
              "/posts/123" router' t trace None Hrun Hlast Hnot)
    as (s & Hstate & _ & _ & Hmatches & Hagain).
  exists router', t, trace, s. split; [reflexivity|].
  split; [exact Hstate|]. split; [|exact Hagain].
  rewrite Hmatches. vm_compute. reflexivity.
Defined.

(** X13: the router shows [/form] and a state for [/about] is pending
    when a dispatch to [/about] is redirected: the pending state stays. *)
Lemma dispatch_ignores_pending_witness :
  exists t trace pending,
    exampleDispatch formRouter "/about" = Ran formRouter t trace /\
    isAborted t = true /\
    exampleDispatch (setNextState formRouter pending) "/about"
    = Ran (setNextState formRouter pending) t trace.
Proof.
  destruct (exampleDispatch formRouter "/about")
    as [|router' t trace|stalled] eqn:Hrun;
    [vm_compute in Hrun; discriminate| |vm_compute in Hrun; discriminate].
  assert (Ha : isAborted t = true).
  { vm_compute in Hrun. injection Hrun as _ <- _. reflexivity. }
  set (pending := resolvedState "/about" ∅ [] []
                    [newMatch aboutRoute ∅]).
  destruct (dispatch_ignores_pending (paths := simplePath) formRouter router'
              "/about" t trace pending Hrun)
    as [(_ & -> & Hsame)|(Hnot & _)]; [|congruence].
  exists t, trace, pending. auto.
Defined.

(** X14: the router shows [/form], nothing is pending, and the dispatch to
    [/about] is redirected; a [flipSwitch] then leaves the router unable
    to dispatch. *)
Lemma dispatch_after_flipSwitch_witness :
  exists router' t trace,
    exampleDispatch formRouter "/about" = Ran router' t trace /\
    exampleDispatch (flipSwitch router') "/form" = TypeError.
Proof.
  destruct (exampleDispatch formRouter "/about")
    as [|router' t trace|stalled] eqn:Hrun;
    [vm_compute in Hrun; discriminate| |vm_compute in Hrun; discriminate].
  assert (Ha : isAborted t = true).
  { vm_compute in Hrun. injection Hrun as _ <- _. reflexivity. }
  exists router', t, trace. split; [reflexivity|].
  exact (proj2 (dispatch_after_flipSwitch (paths := simplePath))
           formRouter router' "/about" t trace "/form" Hrun Ha eq_refl).
Defined.


(** X16: [/broken]'s handler attaches the promise with [transition.wait]
    in [willTransitionTo]; the wait is the next step. *)
Lemma wait_follows_call_witness :
  exists router' t call rest,
    exampleDispatch (newRouter [brokenRoute] None None) "/broken"
    = Ran router' t ([] ++ call :: Await brokenPromise :: rest) /\
    label call = LTo 26.
Proof.
  destruct (exampleDispatch (newRouter [brokenRoute] None None) "/broken")
    as [|router' t trace|stalled] eqn:Hrun;
    [vm_compute in Hrun; discriminate| |vm_compute in Hrun; discriminate].
  destruct trace as [|call after]; [vm_compute in Hrun; discriminate|].
  assert (Hwait : waitOf call = Some brokenPromise).
  { vm_compute in Hrun. injection Hrun as _ _ <- _. reflexivity. }
  assert (Hlabel : label call = LTo 26).
  { vm_compute in Hrun. injection Hrun as _ _ <- _. reflexivity. }
  destruct (wait_follows_call (paths := simplePath) _ router' "/broken" t
              [] after call brokenPromise Hrun Hwait) as [rest ->].
  exists router', t, call, rest. auto.
Defined.


(** X18: [makePath('post', {id: '42'})] and
    [makePath('/posts/:id', {id: '42'})] both give [/posts/42], and a
    redirect to [post] replaces the location with it. *)
Lemma makePath_by_name_witness :
  makePath (builder := simpleBuilder) namedBlog "post" (idParams "42") ∅
  = Returns "/posts/42" /\
  (forall others,
     makePath (builder := simpleBuilder) others "/posts/:id" (idParams "42") ∅
     = makePath (builder := simpleBuilder) namedBlog "post" (idParams "42") ∅)
  /\
  (forall kind l,
     defaultAbortHandler (builder := simpleBuilder) namedBlog
       (Redirect "post" (idParams "42") ∅) (ObjectLocation kind l)
     = Returns (Replace "/posts/42")).
Proof.
  apply (makePath_by_name (builder := simpleBuilder) namedBlog "post"
           postRoute (idParams "42") ∅);
    vm_compute; reflexivity.
Defined.


(** X21: on the server the router shows [/form], whose handler redirects
    when left. *)
Lemma static_run_abort_unhandled_witness :
  exists r,
    exampleRun server formRouter (Some (StaticLocation "/about")) = Returns r /\
    handled (bootstrap r)
    = Some (OnAbort (Redirect "posts" ∅ ∅) (StaticLocation "/about")) /\
    defaultAbortHandler (builder := simpleBuilder) namedBlog
      (Redirect "posts" ∅ ∅) (StaticLocation "/about")
    = Throws (UnhandledAbort (Redirect "posts" ∅ ∅)).
Proof.
  destruct (exampleRun server formRouter (Some (StaticLocation "/about")))
    as [r|e|] eqn:Hr; [|vm_compute in Hr; discriminate..].
  assert (Ha : isAborted (transition_after (bootstrap r)) = true).
  { vm_compute in Hr. injection Hr as <-. reflexivity. }
  assert (Hreason : abortReason (transition_after (bootstrap r))
                    = Some (Redirect "posts" ∅ ∅)).
  { vm_compute in Hr. injection Hr as <-. reflexivity. }
  assert (Hnone : Forall (fun x => raises x = None) (steps (bootstrap r))).
  { vm_compute in Hr. injection Hr as <-. repeat constructor. }
  destruct (static_run_abort_unhandled (paths := simplePath)
              (builder := simpleBuilder) server formRouter namedBlog "/about"
              r (Redirect "posts" ∅ ∅) Hr Ha Hreason eq_refl Hnone)
    as (_ & Hhandled & Hthrows & _).
  exists r. auto.
Defined.

(** X22: after the blog's router has committed [/posts/123]. *)
Lemma changeListener_after_commit_witness :
  exists router' t trace,
    exampleDispatch blogRouter "/posts/123" = Ran router' t trace /\
    changeListener (paths := simplePath) (flipSwitch router')
      (ObjectLocation HashLocation atPosts) "/posts/123"
    = Returns None.
Proof.
  destruct (exampleDispatch blogRouter "/posts/123")
    as [|router' t trace|stalled] eqn:Hrun;
    [vm_compute in Hrun; discriminate| |vm_compute in Hrun; discriminate].
  assert (Hlast : last trace = Some (Callback None None)).
  { vm_compute in Hrun. injection Hrun as _ _ <-. reflexivity. }
  assert (Hnot : isAborted t = false).
  { vm_compute in Hrun. injection Hrun as _ <- _. reflexivity. }
  exists router', t, trace. split; [reflexivity|].
  exact (proj1 (changeListener_after_commit (paths := simplePath) blogRouter
                  router' (ObjectLocation HashLocation atPosts) "/posts/123"
                  t trace None Hrun Hlast Hnot)).
Defined.

(** X24: the blog rendered on the server for [/posts/123]. *)
Lemma run_static_renders_witness :
  exists r s,
    exampleRun server blogRouter (Some (StaticLocation "/posts/123"))
    = Returns r /\
    handled (bootstrap r) = Some (CallbackWith (Some s)) /\
    state_matches s
    = [newMatch appRoute ∅; newMatch postRoute (idParams "123")] /\
    state_params s = idParams "123".
Proof.
  destruct (run_static_renders (paths := simplePath) server [appRoute] None
              None "/posts/123") as (r & s & Hr & _ & _ & Hh & Hm & _ & Hp).
  { vm_compute. repeat constructor. }
  exists r, s. split; [exact Hr|]. split; [exact Hh|].
  split; [rewrite Hm|rewrite Hp]; vm_compute; reflexivity.
Defined.
